(** * 7tv-on-demand: the emote lookup and caching layer

    A shallow embedding of [src/services/emoteService.ts] together with the
    zod schemas of [src/types/emote.ts] and the part of [src/config.ts] the
    service reads.

    - JSON documents received from the 7TV API are values of [json].
    - The zod schemas become parsers into [option]: [None] is a failed
      [safeParse], or the [ZodError] thrown by [parse].
    - The network (axios) is an oracle from URLs to responses.
    - The module-level variables [allEmotes] and [emoteCache] form the
      record [Registry]; the functions that touch them run in the state
      monad [M].
    - [Date.now()] is an explicit argument [now], in milliseconds.
    - [String.prototype.toLowerCase], [toUpperCase] and [trim] are the
      operations of the class [JSString]; [ascii_string] is the instance
      used to run the model on ASCII text.
    - Of the HTTP surface, the file has [getEmoteSetIds] and the
      environment schema of [src/config.ts], the two middlewares of
      [src/middleware/cacheControl.ts], [errorHandler] and
      [notFoundHandler], and the JSON and image routes of [src/index.ts];
      Express's [res] is the record [ServerResponse] of what a handler
      has written to it. *)

From Stdlib Require Import ZArith String Ascii List Lia Permutation DecimalString.
From stdpp Require Import base option list gmap strings.

#[local] Set Warnings "-register-all".

Local Open Scope string_scope.
Local Open Scope Z_scope.

(* ================================================================== *)
(** * JSON documents *)
(* ================================================================== *)

(** The value of [response.data] after axios has decoded the body.
    Numbers carry an integer payload: the only numeric field of the API
    the service reads is the flag word [visibility]. *)
Inductive json : Type :=
| JNull
| JBool (b : bool)
| JNum (n : Z)
| JStr (s : string)
| JArr (l : list json)
| JObj (m : list (string * json)).

(** Property read [obj[k]]; [None] is JavaScript's [undefined]. *)
Fixpoint prop (k : string) (m : list (string * json)) : option json :=
  match m with
  | [] => None
  | (k', v) :: m' => if String.eqb k k' then Some v else prop k m'
  end.

(** An object literal in which a field whose expression evaluates to
    [undefined] reads as absent. *)
Definition obj_literal (fields : list (string * option json)) : json :=
  JObj (omap (fun kv => match snd kv with
                        | Some v => Some (fst kv, v)
                        | None => None
                        end) fields).

(* ================================================================== *)
(** * zod *)
(* ================================================================== *)

Module z.

Definition string (j : json) : option String.string :=
  match j with JStr s => Some s | _ => None end.

Definition number (j : json) : option Z :=
  match j with JNum n => Some n | _ => None end.

Definition boolean (j : json) : option bool :=
  match j with JBool b => Some b | _ => None end.

Definition array {A} (item : json -> option A) (j : json) : option (list A) :=
  match j with JArr l => mapM item l | _ => None end.

(** [z.object]: the input has to be a plain object; the fields are then
    read by key (unknown keys are stripped). *)
Definition object (j : json) : option (list (String.string * json)) :=
  match j with JObj m => Some m | _ => None end.

(** A field without modifier: [undefined] is rejected. *)
Definition required {A} (p : json -> option A) (v : option json) : option A :=
  match v with Some j => p j | None => None end.

(** [.optional()]: [undefined] is accepted and stays [undefined];
    anything else (also [null]) goes through the inner schema. *)
Definition optional {A} (p : json -> option A) (v : option json)
  : option (option A) :=
  match v with Some j => Some <$> p j | None => Some None end.

(** [.default(d)]: [undefined] becomes [d]. *)
Definition default {A} (d : A) (p : json -> option A) (v : option json)
  : option A :=
  match v with Some j => p j | None => Some d end.

End z.

(* ================================================================== *)
(** * src/types/emote.ts *)
(* ================================================================== *)

Module Emote.
Record t : Type := mk {
  id : string;
  name : string;
  owner : string;
  visibility : option Z;
  mime : option string;
  tags : list string;
  animated : bool
}.
End Emote.

Module SevenTVEmote.
Record owner_t : Type := mk_owner { username : string }.
Record data_t : Type := mk_data {
  mime : option string;
  animated : option bool
}.
Record t : Type := mk {
  id : string;
  name : string;
  owner : option owner_t;
  visibility : option Z;
  data : data_t;
  tags : option (list string)
}.
End SevenTVEmote.

Module SevenTVEmoteSet.
Record t : Type := mk { emotes : list SevenTVEmote.t }.
End SevenTVEmoteSet.

Definition EmoteSchema (j : json) : option Emote.t :=
  m ← z.object j;
  id ← z.required z.string (prop "id" m);
  name ← z.required z.string (prop "name" m);
  owner ← z.default "Desconhecido" z.string (prop "owner" m);
  visibility ← z.optional z.number (prop "visibility" m);
  mime ← z.optional z.string (prop "mime" m);
  tags ← z.default [] (z.array z.string) (prop "tags" m);
  animated ← z.default false z.boolean (prop "animated" m);
  Some (Emote.mk id name owner visibility mime tags animated).

Definition SevenTVOwnerSchema (j : json) : option SevenTVEmote.owner_t :=
  m ← z.object j;
  username ← z.required z.string (prop "username" m);
  Some (SevenTVEmote.mk_owner username).

Definition SevenTVDataSchema (j : json) : option SevenTVEmote.data_t :=
  m ← z.object j;
  mime ← z.optional z.string (prop "mime" m);
  animated ← z.optional z.boolean (prop "animated" m);
  Some (SevenTVEmote.mk_data mime animated).

Definition SevenTVEmoteSchema (j : json) : option SevenTVEmote.t :=
  m ← z.object j;
  id ← z.required z.string (prop "id" m);
  name ← z.required z.string (prop "name" m);
  owner ← z.optional SevenTVOwnerSchema (prop "owner" m);
  visibility ← z.optional z.number (prop "visibility" m);
  data ← z.required SevenTVDataSchema (prop "data" m);
  tags ← z.optional (z.array z.string) (prop "tags" m);
  Some (SevenTVEmote.mk id name owner visibility data tags).

Definition SevenTVEmoteSetSchema (j : json) : option SevenTVEmoteSet.t :=
  m ← z.object j;
  emotes ← z.required (z.array SevenTVEmoteSchema) (prop "emotes" m);
  Some (SevenTVEmoteSet.mk emotes).

(* ================================================================== *)
(** * Platform: strings, exceptions, axios, Promise.all, node-cache *)
(* ================================================================== *)

(** The three [String.prototype] methods the service calls. *)
Class JSString : Type := {
  toLowerCase : string -> string;
  toUpperCase : string -> string;
  trim : string -> string
}.

(** What JavaScript does on ASCII text. *)
Module AsciiString.

Definition is_upper (c : ascii) : bool :=
  let n := nat_of_ascii c in (65 <=? n)%nat && (n <=? 90)%nat.

Definition is_lower (c : ascii) : bool :=
  let n := nat_of_ascii c in (97 <=? n)%nat && (n <=? 122)%nat.

(** Space, tab, line feed, vertical tab, form feed, carriage return. *)
Definition is_space (c : ascii) : bool :=
  let n := nat_of_ascii c in
  (n =? 32)%nat || ((9 <=? n)%nat && (n <=? 13)%nat).

Definition lower_char (c : ascii) : ascii :=
  if is_upper c then ascii_of_nat (nat_of_ascii c + 32) else c.

Definition upper_char (c : ascii) : ascii :=
  if is_lower c then ascii_of_nat (nat_of_ascii c - 32) else c.

Fixpoint map_chars (f : ascii -> ascii) (s : string) : string :=
  match s with
  | EmptyString => EmptyString
  | String c s' => String (f c) (map_chars f s')
  end.

Fixpoint trim_start (s : string) : string :=
  match s with
  | EmptyString => EmptyString
  | String c s' => if is_space c then trim_start s' else s
  end.

Fixpoint trim_end (s : string) : string :=
  match s with
  | EmptyString => EmptyString
  | String c s' =>
      match trim_end s' with
      | EmptyString => if is_space c then EmptyString else String c EmptyString
      | rest => String c rest
      end
  end.

End AsciiString.

Definition ascii_string : JSString := {|
  toLowerCase := AsciiString.map_chars AsciiString.lower_char;
  toUpperCase := AsciiString.map_chars AsciiString.upper_char;
  trim := fun s => AsciiString.trim_end (AsciiString.trim_start s)
|}.

(** What a [try] block can throw in this service. *)
Inductive exn : Type := AxiosError | ZodError.

Inductive Completion (A : Type) : Type :=
| Return (a : A)
| Throw (e : exn).
Arguments Return {A} a.
Arguments Throw {A} e.

(** The outcome of [await axios.get(url)]: the decoded body of a 2xx
    response, or a rejection (network error, timeout, other status). *)
Inductive AxiosResult (A : Type) : Type :=
| AxiosOk (data : A)
| AxiosFail.
Arguments AxiosOk {A} data.
Arguments AxiosFail {A}.

(** One promise of [Promise.all(promises)] is fulfilled: its value is
    stored at its own index. *)
Definition settle {A} (promises : list A) (values : list (option A))
    (index : nat) : list (option A) :=
  match promises !! index with
  | Some value => <[index := Some value]> values
  | None => values
  end.

(** [await Promise.all(promises)]. [order] is the order in which the
    promises settle, by index. The result is available once every slot is
    filled ([None]: still pending). *)
Definition Promise_all {A} (order : list nat) (promises : list A)
  : option (list A) :=
  mapM (fun slot => slot)
       (foldl (settle promises) (replicate (length promises) None) order).

(** node-cache with the options of the service: [stdTTL] in seconds,
    [deleteOnExpire] on, no key limit. An entry carries its expiry time
    [t] in milliseconds, [0] meaning that it never expires. *)
Module NodeCache.
Section NodeCache.
Context {V : Type}.

Record entry : Type := mk_entry { v : V; t : Z }.

Definition wrap (stdTTL now : Z) (value : V) : entry :=
  {| v := value; t := if stdTTL =? 0 then 0 else now + stdTTL * 1000 |}.

Definition check (now : Z) (d : entry) : bool :=
  negb (negb (t d =? 0) && (t d <? now)).

Definition get (now : Z) (key : string) (data : gmap string entry)
  : option V * gmap string entry :=
  match data !! key with
  | Some d => if check now d then (Some (v d), data)
              else (None, delete key data)
  | None => (None, data)
  end.

Definition set (stdTTL now : Z) (key : string) (value : V)
    (data : gmap string entry) : gmap string entry :=
  <[key := wrap stdTTL now value]> data.

Definition flushAll (data : gmap string entry) : gmap string entry := ∅.

(** The periodic check ([checkperiod]) drops the entries that have
    expired. *)
Definition checkData (now : Z) (data : gmap string entry)
  : gmap string entry :=
  filter (fun kv : string * entry => check now kv.2 = true) data.

End NodeCache.
Arguments entry V : clear implicits.
End NodeCache.

(* ================================================================== *)
(** * src/config.ts *)
(* ================================================================== *)

Record Config : Type := {
  emoteSetIds : list string;
  cacheTTL : Z
}.

Definition cdnBaseUrl : string := "https://cdn.7tv.app/emote".

(* ================================================================== *)
(** * src/services/emoteService.ts *)
(* ================================================================== *)

(** The operations on the module state that leave a mark in [journal]. *)
Inductive Op : Type :=
| CacheGet (key : string)
| CacheSet (key : string)
| CacheFlushAll
| Scan.

(** The module-level state: [let allEmotes] and [const emoteCache].
    [journal] is instrumentation: the cache accesses and scans of
    [allEmotes] performed so far, oldest first. Nothing reads it. *)
Record Registry : Type := mkRegistry {
  allEmotes : list Emote.t;
  emoteCache : gmap string (NodeCache.entry Emote.t);
  journal : list Op
}.

(** The state at module load. *)
Definition initial : Registry :=
  {| allEmotes := []; emoteCache := ∅; journal := [] |}.

(** Code that reads and writes the module state. *)
Definition M (A : Type) : Type := Registry -> A * Registry.

#[export] Instance M_ret : MRet M := fun A a s => (a, s).
#[export] Instance M_bind : MBind M :=
  fun A B f c s => let (a, s') := c s in f a s'.

(** [for (const x of l) body(x)] *)
Fixpoint for_of {A} (l : list A) (body : A -> M unit) : M unit :=
  match l with
  | [] => mret tt
  | x :: l' => body x;; for_of l' body
  end.

Definition read_allEmotes : M (list Emote.t) := fun s => (allEmotes s, s).

Definition assign_allEmotes (l : list Emote.t) : M unit :=
  fun s => (tt, {| allEmotes := l;
                   emoteCache := emoteCache s;
                   journal := journal s |}).

(** [allEmotes.find(p)] *)
Definition allEmotes_find (p : Emote.t -> bool) : M (option Emote.t) :=
  fun s => (List.find p (allEmotes s),
            {| allEmotes := allEmotes s;
               emoteCache := emoteCache s;
               journal := journal s ++ [Scan] |}).

(** [emoteCache.get(key)] *)
Definition emoteCache_get (now : Z) (key : string) : M (option Emote.t) :=
  fun s => let (r, data) := NodeCache.get now key (emoteCache s) in
           (r, {| allEmotes := allEmotes s;
                  emoteCache := data;
                  journal := journal s ++ [CacheGet key] |}).

(** [emoteCache.set(key, value)] *)
Definition emoteCache_set (stdTTL now : Z) (key : string) (value : Emote.t)
  : M unit :=
  fun s => (tt, {| allEmotes := allEmotes s;
                   emoteCache := NodeCache.set stdTTL now key value (emoteCache s);
                   journal := journal s ++ [CacheSet key] |}).

(** [emoteCache.flushAll()] *)
Definition emoteCache_flushAll : M unit :=
  fun s => (tt, {| allEmotes := allEmotes s;
                   emoteCache := NodeCache.flushAll (emoteCache s);
                   journal := journal s ++ [CacheFlushAll] |}).

(** The timer of [emoteCache] fires ([checkperiod: 120]). *)
Definition emoteCache_checkData (now : Z) : M unit :=
  fun s => (tt, {| allEmotes := allEmotes s;
                   emoteCache := NodeCache.checkData now (emoteCache s);
                   journal := journal s |}).

(** [s || d] for a string or [undefined]: the empty string is falsy. *)
Definition string_or (s : option string) (d : string) : string :=
  match s with
  | Some x => if String.eqb x "" then d else x
  | None => d
  end.

(** [mapSevenTVEmote]: builds the object literal and hands it to
    [EmoteSchema.parse]; [None] is the [ZodError] it throws. *)
Definition mapSevenTVEmote (emote : SevenTVEmote.t) : option Emote.t :=
  EmoteSchema (obj_literal [
    ("id", Some (JStr (SevenTVEmote.id emote)));
    ("name", Some (JStr (SevenTVEmote.name emote)));
    ("owner", Some (JStr (string_or
                            (SevenTVEmote.username <$> SevenTVEmote.owner emote)
                            "Desconhecido")));
    ("visibility", JNum <$> SevenTVEmote.visibility emote);
    ("mime", JStr <$> SevenTVEmote.mime (SevenTVEmote.data emote));
    ("tags", Some (JArr (JStr <$> match SevenTVEmote.tags emote with
                                  | Some l => l
                                  | None => []
                                  end)));
    ("animated", Some (JBool match SevenTVEmote.animated (SevenTVEmote.data emote) with
                             | Some b => b
                             | None => false
                             end))
  ]).

(** The [try] block of [fetchEmoteSet]. *)
Definition fetchEmoteSet_try (axios_get : string -> AxiosResult json)
    (emoteSetId : string) : Completion (list Emote.t) :=
  match axios_get ("https://7tv.io/v3/emote-sets/" +:+ emoteSetId) with
  | AxiosFail => Throw AxiosError
  | AxiosOk data =>
      match SevenTVEmoteSetSchema data with
      | None => Return []
      | Some emoteSet =>
          match mapM mapSevenTVEmote (SevenTVEmoteSet.emotes emoteSet) with
          | Some l => Return l
          | None => Throw ZodError
          end
      end
  end.

(** [fetchEmoteSet]: the [catch] clause turns every exception into the
    empty list (the diagnostics written to the console are not modelled). *)
Definition fetchEmoteSet (axios_get : string -> AxiosResult json)
    (emoteSetId : string) : list Emote.t :=
  match fetchEmoteSet_try axios_get emoteSetId with
  | Return l => l
  | Throw _ => []
  end.

(** What else can run while an [async] function of the module awaits: a
    call of [findEmote], a [fetchEmotes] that resumes, the synchronous
    start of a [refreshEmotes], the timer of the cache. *)
Inductive Step : Type :=
| StepFind (now : Z) (emoteName : string)
| StepFetch (axios_get : string -> AxiosResult json) (order : list nat)
    (now : Z)
| StepFlush
| StepCheck (now : Z).

Section Service.
Context `{JSString} (config : Config).

(** [fetchEmotes] from the point where [Promise.all] has delivered
    [emoteSets]. The loop over [allEmotes] runs within one clock tick. *)
Definition fetchEmotes_resume (now : Z) (emoteSets : list (list Emote.t))
  : M (list Emote.t) :=
  assign_allEmotes (concat emoteSets);;
  loaded ← read_allEmotes;
  for_of loaded (fun emote =>
    emoteCache_set (cacheTTL config) now
      (toLowerCase (Emote.name emote)) emote);;
  read_allEmotes.

(** [fetchEmotes]. [None]: the [await] never resumes, because [order]
    leaves one of the requests unsettled. Nothing in the [try] block
    throws ([fetchEmoteSet] catches what it throws), so the [catch] clause,
    which rethrows, has no part. The function reads the module state only
    after the [await]: [s] is the state at that moment. *)
Definition fetchEmotes (axios_get : string -> AxiosResult json)
    (order : list nat) (now : Z) (s : Registry)
  : option (list Emote.t * Registry) :=
  if (length (emoteSetIds config) =? 0)%nat then Some ([], s)
  else
    emoteSets ← Promise_all order
                  (fetchEmoteSet axios_get <$> emoteSetIds config);
    Some (fetchEmotes_resume now emoteSets s).

(** [findEmote] *)
Definition findEmote (now : Z) (emoteName : string) : M (option Emote.t) :=
  if String.eqb emoteName "" then mret None
  else
    let normalizedName := toLowerCase (trim emoteName) in
    cachedEmote ← emoteCache_get now normalizedName;
    match cachedEmote with
    | Some e => mret (Some e)
    | None =>
        emote ← allEmotes_find
                  (fun e => String.eqb (toLowerCase (Emote.name e)) normalizedName);
        match emote with
        | Some e =>
            emoteCache_set (cacheTTL config) now normalizedName e;;
            mret (Some e)
        | None => mret None
        end
    end.

(** One step of what runs meanwhile (a [fetchEmotes] that does not
    resume leaves no trace). *)
Definition run_step (step : Step) (s : Registry) : Registry :=
  match step with
  | StepFind now emoteName => snd (findEmote now emoteName s)
  | StepFetch axios_get order now =>
      match fetchEmotes axios_get order now s with
      | Some (_, s') => s'
      | None => s
      end
  | StepFlush => snd (emoteCache_flushAll s)
  | StepCheck now => snd (emoteCache_checkData now s)
  end.

Definition run (steps : list Step) (s : Registry) : Registry :=
  foldl (fun s step => run_step step s) s steps.

(** [refreshEmotes]: the cache is flushed at the call and the function
    then awaits [fetchEmotes], which resumes after [meanwhile], whatever
    else has run in between, with [now] the time at that moment. *)
Definition refreshEmotes (axios_get : string -> AxiosResult json)
    (order : list nat) (now : Z) (meanwhile : list Step) (s : Registry)
  : option (list Emote.t * Registry) :=
  let (_, s') := emoteCache_flushAll s in
  fetchEmotes axios_get order now (run meanwhile s').

(** The states the module can be in: each constructor is one piece of
    code that runs without interruption ([reach_flush] is the synchronous
    start of [refreshEmotes], the [fetchEmotes] it awaits is a later
    [reach_fetch]; [reach_check] is the cache's timer). *)
Inductive reachable : Registry -> Prop :=
| reach_initial : reachable initial
| reach_fetch axios_get order now s r s' :
    reachable s ->
    fetchEmotes axios_get order now s = Some (r, s') ->
    reachable s'
| reach_find now emoteName s :
    reachable s ->
    reachable (snd (findEmote now emoteName s))
| reach_flush s :
    reachable s ->
    reachable (snd (emoteCache_flushAll s))
| reach_check now s :
    reachable s ->
    reachable (snd (emoteCache_checkData now s)).

End Service.

Inductive Size : Type := size_1x | size_2x | size_3x | size_4x.
Inductive Format : Type := webp | avif | gif.

#[export] Instance Format_eq_dec : EqDecision Format.
Proof. solve_decision. Defined.

Definition Size_to_string (size : Size) : string :=
  match size with
  | size_1x => "1x" | size_2x => "2x" | size_3x => "3x" | size_4x => "4x"
  end.

Definition Format_to_string (format : Format) : string :=
  match format with webp => "webp" | avif => "avif" | gif => "gif" end.

(** [getEmoteUrl]; an omitted argument is [None]. *)
Definition getEmoteUrl (emoteId : string) (size : option Size)
    (format : option Format) : string :=
  let size := default size_3x size in
  let format := default webp format in
  cdnBaseUrl +:+ "/" +:+ emoteId +:+ "/" +:+ Size_to_string size
    +:+ "." +:+ Format_to_string format.

Record EmoteImage : Type := {
  buffer : list Byte.byte;
  contentType : string
}.

(** [fetchEmoteImage]; its [catch] clause rethrows. *)
Definition fetchEmoteImage (axios_get : string -> AxiosResult (list Byte.byte))
    (emoteId : string) (size : option Size) (format : option Format)
  : Completion EmoteImage :=
  let size := default size_3x size in
  let format := default webp format in
  let url := getEmoteUrl emoteId (Some size) (Some format) in
  match axios_get url with
  | AxiosFail => Throw AxiosError
  | AxiosOk data =>
      let contentType :=
        if decide (format = webp) then "image/webp"
        else if decide (format = avif) then "image/avif"
        else "image/gif" in
      Return {| buffer := data; contentType := contentType |}
  end.

(* ================================================================== *)
(** * Vocabulary of the statements *)
(* ================================================================== *)

(** [raw[k]] for a raw record; [None] when [raw] is not an object or has
    no such key. *)
Definition json_field (k : string) (raw : json) : option json :=
  match raw with JObj m => prop k m | _ => None end.

(** [raw[k]] when it is a string. *)
Definition string_field (k : string) (raw : json) : option string :=
  json_field k raw ≫= z.string.

(** The way of one raw record through [fetchEmoteSet]: validated as an
    element of [SevenTVEmoteSetSchema]'s [emotes], then mapped. *)
Definition normalize (raw : json) : option Emote.t :=
  SevenTVEmoteSchema raw ≫= mapSevenTVEmote.

(** The URL [fetchEmoteSet] requests. *)
Definition emoteSetUrl (emoteSetId : string) : string :=
  "https://7tv.io/v3/emote-sets/" +:+ emoteSetId.

(** A raw record with the given [id] and [name] and an empty [data]. *)
Definition raw_emote (id name : string) : json :=
  JObj [("id", JStr id); ("name", JStr name); ("data", JObj [])].

(** The Emote [raw_emote id name] is mapped to. *)
Definition plain_emote (id name : string) : Emote.t :=
  Emote.mk id name "Desconhecido" None None [] false.

(** A set response with the given records. *)
Definition set_response (records : list json) : json :=
  JObj [("emotes", JArr records)].


(** An upstream given by a table from URL to document; a URL missing from
    the table is a failed request. *)
Fixpoint upstream (table : list (string * json)) (url : string)
  : AxiosResult json :=
  match table with
  | [] => AxiosFail
  | (u, data) :: table' =>
      if String.eqb url u then AxiosOk data else upstream table' url
  end.

(** An upstream that serves the given emote sets, each a list of raw
    records, and fails on every other request. *)
Definition serving (sets : list (string * list json))
  : string -> AxiosResult json :=
  upstream ((fun kv => (emoteSetUrl (fst kv), set_response (snd kv))) <$> sets).

(** A configuration with the one set [A], and one with the sets [A; B]. *)
Definition set_A (ttl : Z) : Config :=
  {| emoteSetIds := ["A"]; cacheTTL := ttl |}.

Definition sets_A_B (ttl : Z) : Config :=
  {| emoteSetIds := ["A"; "B"]; cacheTTL := ttl |}.

(** The module state after a load that left [loaded] in [allEmotes] and
    [entries] in the cache by the writes [writes]. *)
Definition after_load (loaded : list Emote.t)
    (entries : list (string * NodeCache.entry Emote.t))
    (writes : list string) : Registry :=
  {| allEmotes := loaded;
     emoteCache := list_to_map entries;
     journal := CacheSet <$> writes |}.

Section ServiceVocabulary.
Context `{JSString} (config : Config).

(** The key under which [fetchEmotes] caches an Emote. *)
Definition key_of (e : Emote.t) : string := toLowerCase (Emote.name e).

(** [normalizedName] in [findEmote]. *)
Definition normalizedName (emoteName : string) : string :=
  toLowerCase (trim emoteName).

(** The per-set results, flattened in the order of the configured set
    identifiers. *)
Definition loaded (axios_get : string -> AxiosResult json) : list Emote.t :=
  concat (fetchEmoteSet axios_get <$> emoteSetIds config).

(** The cache after the loop of [fetchEmotes] over [l]. *)
Definition populate (now : Z) (l : list Emote.t)
    (data : gmap string (NodeCache.entry Emote.t))
  : gmap string (NodeCache.entry Emote.t) :=
  foldl (fun data e => NodeCache.set (cacheTTL config) now (key_of e) e data)
        data l.

(** Whatever the cache holds under the key of a loaded Emote is a loaded
    Emote with that key. Entries under other keys may be stale. *)
Definition coherent (s : Registry) : Prop :=
  forall k d,
    emoteCache s !! k = Some d ->
    (exists e, e ∈ allEmotes s /\ key_of e = k) ->
    NodeCache.v d ∈ allEmotes s /\ key_of (NodeCache.v d) = k.

End ServiceVocabulary.

(* ================================================================== *)
(** * Platform: split and join, numbers as text, the HTTP response *)
(* ================================================================== *)

(** [s.split(sep)] for a separator of one character. *)
Fixpoint split (sep : ascii) (s : string) : list string :=
  match s with
  | EmptyString => [EmptyString]
  | String c s' =>
      if Ascii.eqb c sep then EmptyString :: split sep s'
      else match split sep s' with
           | h :: t => String c h :: t
           | [] => [String c EmptyString]
           end
  end.

(** [l.join(sep)] *)
Fixpoint join (sep : string) (l : list string) : string :=
  match l with
  | [] => EmptyString
  | x :: l' =>
      match l' with
      | [] => x
      | _ :: _ => x +:+ sep +:+ join sep l'
      end
  end.

(** Whether the character [c] occurs in [s]. *)
Fixpoint contains_char (c : ascii) (s : string) : bool :=
  match s with
  | EmptyString => false
  | String c' s' => Ascii.eqb c' c || contains_char c s'
  end.

(** Whether [s] consists of the character [c] and of white space only. *)
Fixpoint blank_but (c : ascii) (s : string) : bool :=
  match s with
  | EmptyString => true
  | String c' s' =>
      (Ascii.eqb c' c || AsciiString.is_space c') && blank_but c s'
  end.

(** An integer in a template literal. *)
Definition number_to_string (n : Z) : string :=
  NilZero.string_of_int (Z.to_int n).

(** [a || b] for numbers or [undefined]: [0] is falsy. *)
Definition number_or (a b : option Z) : option Z :=
  match a with
  | Some n => if n =? 0 then b else a
  | None => b
  end.

(** What a handler has written to Express's [res]: the status, the
    headers set by [setHeader] (node keeps them under the lower-case
    name), and the body given to [json] or [send]. The headers Express
    adds by itself are left out. *)
Inductive Body : Type :=
| BodyJson (j : json)
| BodyBuffer (b : list Byte.byte).

Record ServerResponse : Type := {
  statusCode : Z;
  headers : gmap string string;
  body : option Body
}.

(** [res] as a handler receives it. *)
Definition new_response : ServerResponse :=
  {| statusCode := 200; headers := ∅; body := None |}.

Definition res_status (code : Z) (res : ServerResponse) : ServerResponse :=
  {| statusCode := code; headers := headers res; body := body res |}.

Definition res_setHeader (name value : string) (res : ServerResponse)
  : ServerResponse :=
  {| statusCode := statusCode res;
     headers := <[AsciiString.map_chars AsciiString.lower_char name := value]>
                  (headers res);
     body := body res |}.

Definition res_getHeader (name : string) (res : ServerResponse)
  : option string :=
  headers res !! AsciiString.map_chars AsciiString.lower_char name.

Definition res_json (j : json) (res : ServerResponse) : ServerResponse :=
  {| statusCode := statusCode res;
     headers := headers res;
     body := Some (BodyJson j) |}.

Definition res_send (b : list Byte.byte) (res : ServerResponse)
  : ServerResponse :=
  {| statusCode := statusCode res;
     headers := headers res;
     body := Some (BodyBuffer b) |}.

(** How a handler hands over: [next()], [next(error)], or neither (the
    response is complete). *)
Inductive Flow : Type :=
| CallNext
| CallNextError (e : exn)
| Done.

(* ================================================================== *)
(** * src/config.ts: the environment *)
(* ================================================================== *)

Record Env : Type := {
  EMOTE_SET_IDS : string;
  PORT : string;
  CACHE_TTL : string;
  NODE_ENV : string
}.

(** [EnvSchema.parse(process.env)]; a variable of the environment is a
    string or [undefined]. [None]: the [ZodError] thrown at module load. *)
Definition EnvSchema (process_env : string -> option string) : option Env :=
  node_env ← match process_env "NODE_ENV" with
             | None => Some "development"
             | Some v =>
                 if String.eqb v "development" || String.eqb v "production"
                    || String.eqb v "test"
                 then Some v else None
             end;
  Some {| EMOTE_SET_IDS := default "" (process_env "EMOTE_SET_IDS");
          PORT := default "3000" (process_env "PORT");
          CACHE_TTL := default "3600" (process_env "CACHE_TTL");
          NODE_ENV := node_env |}.

Definition isProduction (env : Env) : bool :=
  String.eqb (NODE_ENV env) "production".

Section GetEmoteSetIds.
Context `{JSString}.

(** [getEmoteSetIds] *)
Definition getEmoteSetIds (env : Env) : list string :=
  List.filter (fun id => (0 <? String.length id)%nat)
    (trim <$> split "," (EMOTE_SET_IDS env)).

End GetEmoteSetIds.

(* ================================================================== *)
(** * src/middleware/cacheControl.ts *)
(* ================================================================== *)

(** [cacheControl(maxAge)], the middleware it returns. *)
Definition cacheControl (maxAge : option Z) (res : ServerResponse)
  : ServerResponse * Flow :=
  let maxAge := default 3600 maxAge in
  let res := res_setHeader "Cache-Control"
               ("max-age=" +:+ number_to_string maxAge) res in
  let res := res_setHeader "Vary" "Accept" res in
  (res, CallNext).

(** [imageCacheControl] *)
Definition imageCacheControl (res : ServerResponse) : ServerResponse * Flow :=
  let maxAge := 60 * 60 * 24 * 7 in
  let res := res_setHeader "Cache-Control"
               ("max-age=" +:+ number_to_string maxAge) res in
  let res := res_setHeader "Vary" "Accept" res in
  (res, CallNext).

(* ================================================================== *)
(** * src/middleware/errorHandler.ts *)
(* ================================================================== *)

Module HttpError.
Record t : Type := {
  message : string;
  stack : option string;
  status : option Z;
  statusCode : option Z
}.
End HttpError.

(** [errorHandler], given [config.isProduction] (the two writes to the
    console are not modelled). *)
Definition errorHandler (isProduction : bool) (err : HttpError.t)
    (res : ServerResponse) : ServerResponse :=
  let statusCode :=
    default 500 (number_or (number_or (HttpError.status err)
                                      (HttpError.statusCode err))
                           (Some 500)) in
  res_json
    (obj_literal
       (("error", Some (JStr (HttpError.message err)))
        :: (if isProduction then []
            else [("stack", JStr <$> HttpError.stack err)])))
    (res_status statusCode res).

(** [notFoundHandler] *)
Definition notFoundHandler (method originalUrl : string)
    (res : ServerResponse) : ServerResponse :=
  res_json
    (obj_literal
       [("error", Some (JStr ("Rota não encontrada: " +:+ method +:+ " "
                                +:+ originalUrl)))])
    (res_status 404 res).

(* ================================================================== *)
(** * The service at run time *)
(* ================================================================== *)

(** [getEmoteUrl] and [fetchEmoteImage] as they run: the type annotations
    of [size] and [format] are erased, and src/index.ts passes the values
    of the query string without checking them. *)
Module Runtime.

Definition getEmoteUrl (emoteId : string) (size format : option string)
  : string :=
  let size := default "3x" size in
  let format := default "webp" format in
  cdnBaseUrl +:+ "/" +:+ emoteId +:+ "/" +:+ size +:+ "." +:+ format.

Definition fetchEmoteImage (axios_get : string -> AxiosResult (list Byte.byte))
    (emoteId : string) (size format : option string)
  : Completion EmoteImage :=
  let size := default "3x" size in
  let format := default "webp" format in
  let url := getEmoteUrl emoteId (Some size) (Some format) in
  match axios_get url with
  | AxiosFail => Throw AxiosError
  | AxiosOk data =>
      let contentType :=
        if String.eqb format "webp" then "image/webp"
        else if String.eqb format "avif" then "image/avif"
        else "image/gif" in
      Return {| buffer := data; contentType := contentType |}
  end.

End Runtime.

(* ================================================================== *)
(** * src/index.ts: the routes of the API and of the images *)
(* ================================================================== *)

(** One element of [emotes] in the answer of [GET /api/emotes]. *)
Definition emote_list_item (emote : Emote.t) : json :=
  JObj [("name", JStr (Emote.name emote));
        ("id", JStr (Emote.id emote));
        ("owner", JStr (Emote.owner emote));
        ("animated", JBool (Emote.animated emote));
        ("url", JStr (getEmoteUrl (Emote.id emote) None None))].

(** The answer of [GET /api/emote/:emoteName]. *)
Definition emote_response (emote : Emote.t) : json :=
  JObj [("name", JStr (Emote.name emote));
        ("id", JStr (Emote.id emote));
        ("owner", JStr (Emote.owner emote));
        ("animated", JBool (Emote.animated emote));
        ("urls", JObj [
           ("1x", JStr (getEmoteUrl (Emote.id emote) (Some size_1x) None));
           ("2x", JStr (getEmoteUrl (Emote.id emote) (Some size_2x) None));
           ("3x", JStr (getEmoteUrl (Emote.id emote) (Some size_3x) None));
           ("4x", JStr (getEmoteUrl (Emote.id emote) (Some size_4x) None))])].

Definition error_body (message : string) : json :=
  JObj [("error", JStr message)].

Section Routes.
Context `{JSString} (config : Config).

(** [GET /api/emotes]. [fetchEmotes] throws nothing, so the [catch]
    clause has no part. *)
Definition get_api_emotes (axios_get : string -> AxiosResult json)
    (order : list nat) (now : Z) (res : ServerResponse) (s : Registry)
  : option (ServerResponse * Flow * Registry) :=
  match fetchEmotes config axios_get order now s with
  | None => None
  | Some (emotes, s') =>
      let emoteList :=
        JObj [("count", JNum (Z.of_nat (length emotes)));
              ("emotes", JArr (emote_list_item <$> emotes))] in
      Some (res_json emoteList res, Done, s')
  end.

(** [GET /api/emote/:emoteName]; [emoteName] is [req.params.emoteName]. *)
Definition get_api_emote (now : Z) (emoteName : option string)
    (res : ServerResponse) : M (ServerResponse * Flow) :=
  if String.eqb (string_or emoteName "") ""
  then mret (res_json (error_body "Nome do emote não fornecido")
                      (res_status 400 res), Done)
  else
    emote ← findEmote config now (string_or emoteName "");
    match emote with
    | None =>
        mret (res_json (error_body "Emote não encontrado")
                       (res_status 404 res), Done)
    | Some e => mret (res_json (emote_response e) res, Done)
    end.

(** [handleEmoteRequest]; [query_size] is [req.query.size] when it is a
    single value. *)
Definition handleEmoteRequest (now : Z)
    (axios_get : string -> AxiosResult (list Byte.byte))
    (query_size : option string) (res : ServerResponse)
    (emoteName : string) (format : option string)
  : M (ServerResponse * Flow) :=
  let format := default "webp" format in
  if String.eqb emoteName ""
  then mret (res_json (error_body "Nome do emote não fornecido")
                      (res_status 400 res), Done)
  else
    let size := string_or query_size "3x" in
    emote ← findEmote config now emoteName;
    match emote with
    | None =>
        mret (res_json (error_body "Emote não encontrado")
                       (res_status 404 res), Done)
    | Some e =>
        match Runtime.fetchEmoteImage axios_get (Emote.id e)
                (Some size) (Some format) with
        | Throw error => mret (res, CallNextError error)
        | Return image =>
            let res := res_setHeader "Content-Type" (contentType image) res in
            let res := res_setHeader "Content-Length"
                         (number_to_string
                            (Z.of_nat (length (buffer image)))) res in
            mret (res_send (buffer image) res, Done)
        end
    end.

(** [GET /:emoteName.webp], [.avif] and [.gif]; [emoteName] is
    [req.params.emoteName]. *)
Definition get_emoteName_webp (now : Z)
    (axios_get : string -> AxiosResult (list Byte.byte))
    (query_size emoteName : option string) (res : ServerResponse)
  : M (ServerResponse * Flow) :=
  handleEmoteRequest now axios_get query_size res
    (string_or emoteName "") (Some "webp").

Definition get_emoteName_avif (now : Z)
    (axios_get : string -> AxiosResult (list Byte.byte))
    (query_size emoteName : option string) (res : ServerResponse)
  : M (ServerResponse * Flow) :=
  handleEmoteRequest now axios_get query_size res
    (string_or emoteName "") (Some "avif").

Definition get_emoteName_gif (now : Z)
    (axios_get : string -> AxiosResult (list Byte.byte))
    (query_size emoteName : option string) (res : ServerResponse)
  : M (ServerResponse * Flow) :=
  handleEmoteRequest now axios_get query_size res
    (string_or emoteName "") (Some "gif").

End Routes.

(* ================================================================== *)
(** * The normalizer *)
(* ================================================================== *)

Lemma mapM_string_JStr (l : list string) : mapM z.string (JStr <$> l) = Some l.
Proof. by apply mapM_fmap_Some. Qed.

(** On a validated record [mapSevenTVEmote] never throws, and this is the
    Emote it builds. *)
Lemma mapSevenTVEmote_eq (emote : SevenTVEmote.t) :
  mapSevenTVEmote emote = Some {|
    Emote.id := SevenTVEmote.id emote;
    Emote.name := SevenTVEmote.name emote;
    Emote.owner := string_or (SevenTVEmote.username <$> SevenTVEmote.owner emote)
                             "Desconhecido";
    Emote.visibility := SevenTVEmote.visibility emote;
    Emote.mime := SevenTVEmote.mime (SevenTVEmote.data emote);
    Emote.tags := match SevenTVEmote.tags emote with Some l => l | None => [] end;
    Emote.animated := match SevenTVEmote.animated (SevenTVEmote.data emote) with
                      | Some b => b
                      | None => false
                      end
  |}.
Proof.
  destruct emote as [i n o vis [mi an] tg].
  unfold mapSevenTVEmote, EmoteSchema, obj_literal.
  destruct vis, mi; cbn; rewrite mapM_string_JStr; reflexivity.
Qed.

Lemma mapM_mapSevenTVEmote (l : list SevenTVEmote.t) :
  is_Some (mapM mapSevenTVEmote l).
Proof.
  apply mapM_is_Some, Forall_forall. intros e _. unfold compose.
  rewrite mapSevenTVEmote_eq. eauto.
Qed.

Lemma SevenTVEmoteSchema_fields (raw : json) (r : SevenTVEmote.t) :
  SevenTVEmoteSchema raw = Some r ->
  string_field "id" raw = Some (SevenTVEmote.id r) /\
  string_field "name" raw = Some (SevenTVEmote.name r).
Proof.
  unfold SevenTVEmoteSchema, string_field.
  destruct raw as [| | | | |m]; cbn; try discriminate.
  destruct (prop "id" m) as [[| | |i| |]|]; cbn; try discriminate.
  destruct (prop "name" m) as [[| | |n| |]|]; cbn; try discriminate.
  intros Hr. split; f_equal.
  all: repeat (match type of Hr with
               | context [?x ≫= _] =>
                   destruct x; cbn in Hr; try discriminate
               end);
    by inversion Hr.
Qed.

Lemma normalize_fields (raw : json) (e : Emote.t) :
  normalize raw = Some e ->
  string_field "id" raw = Some (Emote.id e) /\
  string_field "name" raw = Some (Emote.name e).
Proof.
  unfold normalize. destruct (SevenTVEmoteSchema raw) as [r|] eqn:Hr;
    [|discriminate].
  change (Some r ≫= mapSevenTVEmote) with (mapSevenTVEmote r).
  rewrite mapSevenTVEmote_eq. intros [= <-]. cbn.
  by apply SevenTVEmoteSchema_fields.
Qed.

Lemma normalize_None_schema (raw : json) :
  normalize raw = None <-> SevenTVEmoteSchema raw = None.
Proof.
  unfold normalize. destruct (SevenTVEmoteSchema raw) as [r|]; [|done].
  change (Some r ≫= mapSevenTVEmote) with (mapSevenTVEmote r).
  rewrite mapSevenTVEmote_eq. split; discriminate.
Qed.

Lemma missing_field_rejected (raw : json) :
  string_field "id" raw = None \/ string_field "name" raw = None ->
  SevenTVEmoteSchema raw = None.
Proof.
  intros Hmiss. destruct (SevenTVEmoteSchema raw) as [r|] eqn:Hr; [|done].
  apply SevenTVEmoteSchema_fields in Hr as [Hi Hn].
  destruct Hmiss; congruence.
Qed.



(** The Emotes of a validated set are the images of its records, in the
    order of the response. *)
Lemma fetchEmoteSet_in_order axios_get emoteSetId data emoteSet :
  axios_get (emoteSetUrl emoteSetId) = AxiosOk data ->
  SevenTVEmoteSetSchema data = Some emoteSet ->
  Forall2 (fun record emote => mapSevenTVEmote record = Some emote)
          (SevenTVEmoteSet.emotes emoteSet)
          (fetchEmoteSet axios_get emoteSetId).
Proof.
  intros Hget Hdata. unfold fetchEmoteSet, fetchEmoteSet_try.
  fold (emoteSetUrl emoteSetId). rewrite Hget, Hdata.
  destruct (mapM_mapSevenTVEmote (SevenTVEmoteSet.emotes emoteSet)) as [l Hl].
  rewrite Hl. by apply mapM_Some_1.
Qed.

Lemma EmoteSchema_fields (raw : json) (e : Emote.t) :
  EmoteSchema raw = Some e ->
  string_field "id" raw = Some (Emote.id e) /\
  string_field "name" raw = Some (Emote.name e).
Proof.
  unfold EmoteSchema, string_field.
  destruct raw as [| | | | |m]; cbn; try discriminate.
  destruct (prop "id" m) as [[| | |i| |]|]; cbn; try discriminate.
  destruct (prop "name" m) as [[| | |n| |]|]; cbn; try discriminate.
  intros Hr. split; f_equal.
  all: repeat (match type of Hr with
               | context [?x ≫= _] =>
                   destruct x; cbn in Hr; try discriminate
               end);
    by inversion Hr.
Qed.




(** C2, as stated, fails: a record whose [id] and [name] are the empty
    string is validated and mapped, and the Emote it gives has an empty
    [id] and an empty [name]. [z.string()] does not ask for a minimal
    length. *)
Lemma empty_id_and_name_accepted :
  string_field "id" (raw_emote "" "") = Some "" /\
  string_field "name" (raw_emote "" "") = Some "" /\
  normalize (raw_emote "" "") = Some (plain_emote "" "") /\
  EmoteSchema (JObj [("id", JStr ""); ("name", JStr "")])
    = Some (plain_emote "" "") /\
  ~ (forall raw e, normalize raw = Some e ->
       Emote.id e <> "" /\ Emote.name e <> "").
Proof.
  repeat split; try reflexivity.
  intros Hclaim.
  destruct (Hclaim (raw_emote "" "") (plain_emote "" "") eq_refl) as [Hid _].
  by apply Hid.
Qed.

(** C2, amended: construction fails when [id] or [name] is missing or is
    not a string, both on the way of a raw record through the set schema
    and in [EmoteSchema] itself; and the [id] and [name] of a constructed
    Emote are the strings the raw record carries under these keys (empty
    strings included). *)
Theorem normalize_requires_id_and_name (raw : json) :
  (string_field "id" raw = None \/ string_field "name" raw = None ->
   normalize raw = None /\ EmoteSchema raw = None) /\
  (forall e, normalize raw = Some e \/ EmoteSchema raw = Some e ->
     string_field "id" raw = Some (Emote.id e) /\
     string_field "name" raw = Some (Emote.name e)).
Proof.
  split.
  - intros Hmiss. split.
    + by apply normalize_None_schema, missing_field_rejected.
    + destruct (EmoteSchema raw) as [e|] eqn:He; [|done].
      apply EmoteSchema_fields in He as [Hi Hn].
      destruct Hmiss; congruence.
  - intros e [He|He].
    + by apply normalize_fields.
    + by apply EmoteSchema_fields.
Qed.

(** A record without [id] is rejected; a complete one keeps its strings. *)
Lemma normalize_requires_id_and_name_witness :
  let no_id := JObj [("name", JStr "b"); ("data", JObj [])] in
  (normalize no_id = None /\ EmoteSchema no_id = None) /\
  string_field "id" (raw_emote "1" "a") = Some "1" /\
  string_field "name" (raw_emote "1" "a") = Some "a".
Proof.
  split.
  - apply (proj1 (normalize_requires_id_and_name _)).
    left. reflexivity.
  - apply (proj2 (normalize_requires_id_and_name (raw_emote "1" "a"))
             (plain_emote "1" "a")).
    left. reflexivity.
Defined.

(* ================================================================== *)
(** * Promise.all *)
(* ================================================================== *)

Section PromiseAll.
Context {A : Type} (promises : list A).

Lemma settle_length values order :
  length (foldl (settle promises) values order) = length values.
Proof.
  revert values. induction order as [|i order IH]; intros values; [done|].
  cbn. rewrite IH. unfold settle.
  destruct (promises !! i); [apply length_insert|done].
Qed.

(** A filled slot holds the value of the promise at that index. *)
Lemma settle_sound values order :
  (forall j x, values !! j = Some (Some x) -> promises !! j = Some x) ->
  forall j x, foldl (settle promises) values order !! j = Some (Some x) ->
              promises !! j = Some x.
Proof.
  revert values. induction order as [|i order IH]; intros values Hv; [done|].
  cbn. apply IH. intros j x. unfold settle.
  destruct (promises !! i) as [value|] eqn:Hi; [|apply Hv].
  destruct (decide (i = j)) as [->|Hne].
  - intros Hj. apply lookup_lt_Some in Hj as Hlen.
    rewrite length_insert in Hlen.
    rewrite list_lookup_insert_eq in Hj by done. congruence.
  - rewrite list_lookup_insert_ne by done. apply Hv.
Qed.

(** A promise that settles, or had settled before, fills its slot. *)
Lemma settle_filled values order j x :
  length values = length promises ->
  promises !! j = Some x ->
  j ∈ order \/ values !! j = Some (Some x) ->
  foldl (settle promises) values order !! j = Some (Some x).
Proof.
  intros Hlen Hj. revert values Hlen.
  induction order as [|i order IH]; intros values Hlen Hor.
  - destruct Hor as [Hin|Hv]; [by apply not_elem_of_nil in Hin|done].
  - cbn. apply IH.
    + unfold settle. destruct (promises !! i); [by rewrite length_insert|done].
    + assert (j < length values)%nat as Hlt.
      { rewrite Hlen. by eapply lookup_lt_Some. }
      destruct (decide (i = j)) as [->|Hne].
      * right. unfold settle. rewrite Hj.
        by apply list_lookup_insert_eq.
      * destruct Hor as [Hin|Hv].
        { apply elem_of_cons in Hin as [->|Hin]; [done|by left]. }
        right. unfold settle.
        destruct (promises !! i); [|done].
        by rewrite list_lookup_insert_ne.
Qed.

(** When [Promise.all] resumes, it delivers the values in the order of
    the promises, whatever the order of settlement. *)
Lemma Promise_all_Some order l :
  Promise_all order promises = Some l -> l = promises.
Proof.
  unfold Promise_all.
  set (values := foldl (settle promises) _ order). intros Hl.
  assert (length values = length promises) as Hlen.
  { unfold values. by rewrite settle_length, length_replicate. }
  apply mapM_Some_1 in Hl.
  apply list_eq_same_length with (length promises).
  - done.
  - apply Forall2_length in Hl. lia.
  - intros j x y _ Hx Hy.
    destruct (Forall2_lookup_r _ _ _ _ _ Hl Hx) as (slot & Hslot & ->).
    assert (promises !! j = Some x); [|congruence].
    apply (settle_sound (replicate (length promises) None) order); [|done].
    intros j' x' Hrep. apply lookup_replicate in Hrep as [? _]. done.
Qed.

(** It resumes as soon as every promise has settled. *)
Lemma Promise_all_complete order :
  (forall j, (j < length promises)%nat -> j ∈ order) ->
  Promise_all order promises = Some promises.
Proof.
  intros Hall. unfold Promise_all.
  set (values := foldl (settle promises) _ order).
  assert (values = Some <$> promises) as ->.
  { apply list_eq. intros j. rewrite list_lookup_fmap.
    destruct (promises !! j) as [x|] eqn:Hj; cbn.
    - apply settle_filled; [by rewrite length_replicate|done|].
      left. apply Hall. by eapply lookup_lt_Some.
    - apply lookup_ge_None. apply lookup_ge_None in Hj.
      unfold values. by rewrite settle_length, length_replicate. }
  by apply mapM_fmap_Some.
Qed.

End PromiseAll.

Lemma Promise_all_permutation {A} (promises : list A) (order : list nat) :
  Permutation order (seq 0 (length promises)) ->
  Promise_all order promises = Some promises.
Proof.
  intros Hperm. apply Promise_all_complete. intros j Hj.
  rewrite Hperm. apply list_elem_of_In, in_seq. lia.
Qed.

(* ================================================================== *)
(** * node-cache *)
(* ================================================================== *)

Lemma NodeCache_get_Some {V} now key (data data' : gmap string (NodeCache.entry V)) x :
  NodeCache.get now key data = (Some x, data') ->
  data' = data /\
  exists d, data !! key = Some d /\ NodeCache.v d = x /\
            NodeCache.check now d = true.
Proof.
  unfold NodeCache.get. destruct (data !! key) as [d|]; [|discriminate].
  destruct (NodeCache.check now d) eqn:Hc; [|discriminate].
  intros [= <- <-]. eauto.
Qed.

Lemma NodeCache_get_None {V} now key (data data' : gmap string (NodeCache.entry V)) :
  NodeCache.get now key data = (None, data') ->
  (data !! key = None /\ data' = data) \/
  (exists d, data !! key = Some d /\ NodeCache.check now d = false /\
             data' = delete key data).
Proof.
  unfold NodeCache.get. destruct (data !! key) as [d|] eqn:Hd.
  - destruct (NodeCache.check now d) eqn:Hc; [discriminate|].
    intros [= <-]. right. eauto.
  - intros [= <-]. by left.
Qed.

(** A read never adds an entry and never changes one. *)
Lemma NodeCache_get_lookup {V} now key (data : gmap string (NodeCache.entry V)) k d :
  (NodeCache.get now key data).2 !! k = Some d -> data !! k = Some d.
Proof.
  unfold NodeCache.get. destruct (data !! key) as [d0|]; [|done].
  destruct (NodeCache.check now d0); [done|]. cbn.
  intros Hk. by apply lookup_delete_Some in Hk as [_ Hk].
Qed.

(** An entry is live for ever when the TTL is [0], and otherwise up to
    the TTL after it was written. *)
Lemma NodeCache_check_wrap {V} (stdTTL now now' : Z) (value : V) :
  stdTTL = 0 \/ now' <= now + stdTTL * 1000 ->
  NodeCache.check now' (NodeCache.wrap stdTTL now value) = true.
Proof.
  unfold NodeCache.check, NodeCache.wrap. cbn. intros [->|Hle]; [done|].
  destruct (stdTTL =? 0); [done|].
  apply negb_true_iff, andb_false_iff. right. lia.
Qed.

Lemma NodeCache_check_wrap_expired {V} (stdTTL now now' : Z) (value : V) :
  stdTTL <> 0 -> now + stdTTL * 1000 <> 0 -> now + stdTTL * 1000 < now' ->
  NodeCache.check now' (NodeCache.wrap stdTTL now value) = false.
Proof.
  unfold NodeCache.check, NodeCache.wrap. cbn. intros Hne Hne' Hlt.
  destruct (Z.eqb_spec stdTTL 0) as [|_]; [done|].
  apply negb_false_iff, andb_true_iff. split; [|lia].
  apply negb_true_iff. lia.
Qed.

(* ================================================================== *)
(** * The registry *)
(* ================================================================== *)

Section RegistryFacts.
Context `{JSString} (config : Config).

Lemma populate_snoc now l e data :
  populate config now (l ++ [e]) data =
    <[key_of e := NodeCache.wrap (cacheTTL config) now e]> (populate config now l data).
Proof. unfold populate. by rewrite foldl_app. Qed.

(** The loop leaves alone every key that is not the key of a loaded
    Emote. *)
Lemma populate_lookup_other now l data k :
  (forall e, e ∈ l -> key_of e <> k) ->
  populate config now l data !! k = data !! k.
Proof.
  induction l as [|e l IH] using rev_ind; intros Hk; [done|].
  rewrite populate_snoc, lookup_insert_ne.
  - apply IH. intros e' He'. apply Hk, elem_of_app. by left.
  - apply Hk, elem_of_app. right. apply list_elem_of_here.
Qed.

(** Under the key of a loaded Emote the loop leaves a loaded Emote with
    that key. *)
Lemma populate_lookup_loaded now l data k :
  (exists e, e ∈ l /\ key_of e = k) ->
  exists e, e ∈ l /\ key_of e = k /\
    populate config now l data !! k = Some (NodeCache.wrap (cacheTTL config) now e).
Proof.
  induction l as [|e l IH] using rev_ind; intros (e0 & Hin & Hk).
  { by apply not_elem_of_nil in Hin. }
  rewrite populate_snoc.
  destruct (decide (key_of e = k)) as [Heq|Hne].
  - exists e. rewrite Heq, lookup_insert_eq.
    split; [apply elem_of_app; right; apply list_elem_of_here|done].
  - apply elem_of_app in Hin as [Hin|Hin].
    + destruct IH as (e1 & Hin1 & Hk1 & Hl1); [by eauto|].
      exists e1. rewrite lookup_insert_ne by done.
      split; [apply elem_of_app; by left|done].
    + apply list_elem_of_singleton in Hin as ->. done.
Qed.

(** Last write wins. *)
Lemma populate_lookup_last now l1 e l2 data :
  (forall e', e' ∈ l2 -> key_of e' <> key_of e) ->
  populate config now (l1 ++ e :: l2) data !! key_of e =
    Some (NodeCache.wrap (cacheTTL config) now e).
Proof.
  intros Hl2.
  replace (l1 ++ e :: l2)%list with ((l1 ++ [e]) ++ l2)%list
    by by rewrite <- app_assoc.
  unfold populate. rewrite foldl_app. fold (populate config now (l1 ++ [e]) data).
  fold (populate config now l2 (populate config now (l1 ++ [e]) data)).
  rewrite populate_lookup_other by done.
  by rewrite populate_snoc, lookup_insert_eq.
Qed.

(** The loop removes nothing. *)
Lemma populate_lookup_is_Some now l data k :
  is_Some (data !! k) -> is_Some (populate config now l data !! k).
Proof.
  induction l as [|e l IH] using rev_ind; intros Hk; [done|].
  rewrite populate_snoc. destruct (decide (key_of e = k)) as [<-|Hne].
  - rewrite lookup_insert_eq. eauto.
  - rewrite lookup_insert_ne by done. by apply IH.
Qed.

Lemma for_of_emoteCache_set now l s :
  for_of l (fun emote =>
    emoteCache_set (cacheTTL config) now
      (toLowerCase (Emote.name emote)) emote) s =
  (tt, {| allEmotes := allEmotes s;
          emoteCache := populate config now l (emoteCache s);
          journal := journal s ++ (CacheSet <$> (key_of <$> l)) |}).
Proof.
  revert s. induction l as [|e l IH]; intros s; cbn.
  - rewrite app_nil_r. by destruct s.
  - unfold mbind, M_bind. cbn. rewrite IH. cbn.
    by rewrite <- app_assoc.
Qed.

Lemma fetchEmotes_resume_eq now emoteSets s :
  fetchEmotes_resume config now emoteSets s =
  (concat emoteSets,
   {| allEmotes := concat emoteSets;
      emoteCache := populate config now (concat emoteSets) (emoteCache s);
      journal := journal s ++ (CacheSet <$> (key_of <$> concat emoteSets)) |}).
Proof.
  unfold fetchEmotes_resume, mbind, M_bind. cbn.
  by rewrite for_of_emoteCache_set.
Qed.

(** The two ways [fetchEmotes] completes: at once and without effect
    when no set is configured, and otherwise with the sets loaded. *)
Lemma fetchEmotes_Some axios_get order now s r s' :
  fetchEmotes config axios_get order now s = Some (r, s') ->
  (emoteSetIds config = [] /\ r = [] /\ s' = s) \/
  (emoteSetIds config <> [] /\ r = loaded config axios_get /\
   s' = {| allEmotes := loaded config axios_get;
           emoteCache := populate config now (loaded config axios_get) (emoteCache s);
           journal := journal s ++
                      (CacheSet <$> (key_of <$> loaded config axios_get)) |}).
Proof.
  unfold fetchEmotes.
  destruct (emoteSetIds config) as [|i ids] eqn:Hids.
  - intros [= <- <-]. by left.
  - change (length (i :: ids) =? 0)%nat with false. cbv iota.
    destruct (Promise_all order _) as [emoteSets|] eqn:Hall;
      cbn [mbind option_bind]; [|discriminate].
    apply Promise_all_Some in Hall as ->.
    rewrite fetchEmotes_resume_eq. intros [= <- <-].
    right. unfold loaded. rewrite Hids.
    split; [done|]. split; reflexivity.
Qed.

(** [fetchEmotes] completes once every request has settled. *)
Lemma fetchEmotes_complete axios_get order now s :
  (forall j, (j < length (emoteSetIds config))%nat -> j ∈ order) ->
  exists r s', fetchEmotes config axios_get order now s = Some (r, s').
Proof.
  intros Hall. unfold fetchEmotes.
  destruct (length (emoteSetIds config) =? 0)%nat; [by eauto|].
  rewrite Promise_all_complete by by rewrite length_fmap.
  cbn [mbind option_bind]. rewrite fetchEmotes_resume_eq. eauto.
Qed.

(** [findEmote] on a name that is not empty, step by step. *)
Lemma findEmote_unfold now q s :
  q <> "" ->
  findEmote config now q s =
    let k := normalizedName q in
    let (cachedEmote, data) := NodeCache.get now k (emoteCache s) in
    match cachedEmote with
    | Some e =>
        (Some e, {| allEmotes := allEmotes s;
                    emoteCache := data;
                    journal := journal s ++ [CacheGet k] |})
    | None =>
        match find (fun e => String.eqb (key_of e) k) (allEmotes s) with
        | Some e =>
            (Some e,
             {| allEmotes := allEmotes s;
                emoteCache := NodeCache.set (cacheTTL config) now k e data;
                journal := journal s ++ [CacheGet k; Scan; CacheSet k] |})
        | None =>
            (None, {| allEmotes := allEmotes s;
                      emoteCache := data;
                      journal := journal s ++ [CacheGet k; Scan] |})
        end
    end.
Proof.
  intros Hq. apply String.eqb_neq in Hq.
  unfold findEmote. rewrite Hq.
  unfold mbind, M_bind, emoteCache_get, allEmotes_find, emoteCache_set,
    normalizedName, key_of. cbn.
  destruct (NodeCache.get now _ (emoteCache s)) as [[e|] data]; cbn; [done|].
  destruct (find _ (allEmotes s)); cbn; by rewrite <- !app_assoc.
Qed.

Lemma findEmote_allEmotes now q s :
  allEmotes (findEmote config now q s).2 = allEmotes s.
Proof.
  destruct (decide (q = "")) as [->|Hq]; [done|].
  rewrite findEmote_unfold by done. cbn.
  destruct (NodeCache.get now _ (emoteCache s)) as [[e|] data]; [done|].
  by destruct (find _ (allEmotes s)).
Qed.

(** With no set configured nothing is ever loaded. *)
Lemma allEmotes_empty_config s :
  emoteSetIds config = [] -> reachable config s -> allEmotes s = [].
Proof.
  intros Hids Hreach.
  induction Hreach
    as [|axios_get order now s r s' _ IH Hf|now q s _ IH|s _ IH|now s _ IH].
  - done.
  - apply fetchEmotes_Some in Hf as [(_ & _ & ->)|(Hne & _)]; done.
  - by rewrite findEmote_allEmotes.
  - done.
  - done.
Qed.

Lemma run_snoc steps step s :
  run config (steps ++ [step]) s = run_step config step (run config steps s).
Proof. unfold run. by rewrite foldl_app. Qed.

(** What runs meanwhile leads from a state the module can be in to such
    a state. *)
Lemma run_reachable steps s :
  reachable config s -> reachable config (run config steps s).
Proof.
  intros Hreach. induction steps as [|step steps IH] using rev_ind; [done|].
  rewrite run_snoc.
  destruct step as [now q|axios_get order now| |now]; cbn.
  - by apply reach_find.
  - destruct (fetchEmotes config axios_get order now (run config steps s))
      as [[r s']|] eqn:Hf; [|done].
    by eapply reach_fetch.
  - by apply (reach_flush config).
  - by apply (reach_check config).
Qed.

End RegistryFacts.

(* ================================================================== *)
(** * Loading *)
(* ================================================================== *)

Section Loading.
Context `{JSString} (config : Config).

(** [fetchEmotes] completes once every request has settled, and then
    returns, and leaves in [allEmotes], the flattened per-set results. *)
Lemma fetchEmotes_loaded
    (axios_get : string -> AxiosResult json) (order : list nat) (now : Z)
    (s : Registry) :
  reachable config s \/ emoteSetIds config <> [] ->
  Permutation order (seq 0 (length (emoteSetIds config))) ->
  exists s', fetchEmotes config axios_get order now s
               = Some (loaded config axios_get, s') /\
             allEmotes s' = loaded config axios_get.
Proof.
  intros Hs Hperm.
  destruct (fetchEmotes_complete config axios_get order now s)
    as (r & s' & Hf).
  { intros j Hj. rewrite Hperm. apply list_elem_of_In, in_seq. lia. }
  rewrite Hf.
  apply fetchEmotes_Some in Hf as [(Hids & -> & ->)|(Hne & -> & ->)].
  - destruct Hs as [Hreach|Hne]; [|done].
    exists s. unfold loaded. rewrite Hids. cbn.
    split; [done|]. by apply (allEmotes_empty_config config).
  - eexists. split; reflexivity.
Qed.

(** C4. In every state the module can be in (and, when at least one set
    is configured, in any state whatsoever), [fetchEmotes] and
    [refreshEmotes] complete once every request has settled, in whatever
    order [order] the requests settle and, for [refreshEmotes], whatever
    else runs between its flush and its load; they return, and leave in
    [allEmotes], the per-set results flattened in the order of the
    configured identifiers. Nothing of the previous [allEmotes] survives.
    With no set configured the list is empty before and after. Within a
    set, the Emotes follow the order of the records in the response. *)
Theorem fetchEmotes_replaces_allEmotes
    (axios_get : string -> AxiosResult json) (order : list nat) (now : Z)
    (s : Registry) :
  reachable config s \/ emoteSetIds config <> [] ->
  Permutation order (seq 0 (length (emoteSetIds config))) ->
  (exists s', fetchEmotes config axios_get order now s
                = Some (loaded config axios_get, s') /\
              allEmotes s' = loaded config axios_get) /\
  (forall meanwhile,
     exists s', refreshEmotes config axios_get order now meanwhile s
                  = Some (loaded config axios_get, s') /\
                allEmotes s' = loaded config axios_get) /\
  (forall emoteSetId data emoteSet,
     axios_get (emoteSetUrl emoteSetId) = AxiosOk data ->
     SevenTVEmoteSetSchema data = Some emoteSet ->
     Forall2 (fun record emote => mapSevenTVEmote record = Some emote)
             (SevenTVEmoteSet.emotes emoteSet)
             (fetchEmoteSet axios_get emoteSetId)).
Proof.
  intros Hs Hperm. split; [by apply fetchEmotes_loaded|]. split.
  - intros meanwhile. unfold refreshEmotes. cbn.
    apply fetchEmotes_loaded; [|done].
    destruct Hs as [Hreach|Hne]; [left|by right].
    by apply run_reachable, (reach_flush config s).
  - apply fetchEmoteSet_in_order.
Qed.

(** C5. [fetchEmoteSet] returns the empty list when the request fails
    (network error or timeout: the exception thrown in the [try] block is
    caught) and when the response does not have the shape of an emote set.
    Hence, with the sets [A; B] configured, [A] answering with three valid
    records and [B] failing in either way, [fetchEmotes] completes and
    returns exactly the three Emotes of [A]. *)
Theorem degrade_to_empty :
  (forall axios_get emoteSetId,
     axios_get (emoteSetUrl emoteSetId) = AxiosFail ->
     fetchEmoteSet_try axios_get emoteSetId = Throw AxiosError /\
     fetchEmoteSet axios_get emoteSetId = []) /\
  (forall axios_get emoteSetId data,
     axios_get (emoteSetUrl emoteSetId) = AxiosOk data ->
     SevenTVEmoteSetSchema data = None ->
     fetchEmoteSet axios_get emoteSetId = []) /\
  (forall axios_get A B order now s data r1 r2 r3,
     emoteSetIds config = [A; B] ->
     axios_get (emoteSetUrl A) = AxiosOk data ->
     SevenTVEmoteSetSchema data = Some (SevenTVEmoteSet.mk [r1; r2; r3]) ->
     (axios_get (emoteSetUrl B) = AxiosFail \/
      exists d, axios_get (emoteSetUrl B) = AxiosOk d /\
                SevenTVEmoteSetSchema d = None) ->
     Permutation order [0; 1]%nat ->
     exists e1 e2 e3 s',
       mapSevenTVEmote r1 = Some e1 /\
       mapSevenTVEmote r2 = Some e2 /\
       mapSevenTVEmote r3 = Some e3 /\
       fetchEmotes config axios_get order now s = Some ([e1; e2; e3], s') /\
       allEmotes s' = [e1; e2; e3]).
Proof.
  assert (forall axios_get emoteSetId,
            axios_get (emoteSetUrl emoteSetId) = AxiosFail ->
            fetchEmoteSet_try axios_get emoteSetId = Throw AxiosError /\
            fetchEmoteSet axios_get emoteSetId = []) as Hfail.
  { intros axios_get i Hget. unfold fetchEmoteSet, fetchEmoteSet_try.
    fold (emoteSetUrl i). by rewrite Hget. }
  assert (forall axios_get emoteSetId data,
            axios_get (emoteSetUrl emoteSetId) = AxiosOk data ->
            SevenTVEmoteSetSchema data = None ->
            fetchEmoteSet axios_get emoteSetId = []) as Hshape.
  { intros axios_get i data Hget Hdata. unfold fetchEmoteSet, fetchEmoteSet_try.
    fold (emoteSetUrl i). by rewrite Hget, Hdata. }
  split; [done|]. split; [done|].
  intros axios_get A B order now s data r1 r2 r3 Hids HA Hdata HB Hperm.
  assert (fetchEmoteSet axios_get B = []) as HB'.
  { destruct HB as [HB|(d & HB & Hd)]; [by apply Hfail|by eapply Hshape]. }
  destruct (mapSevenTVEmote r1) as [e1|] eqn:H1;
    [|by rewrite mapSevenTVEmote_eq in H1].
  destruct (mapSevenTVEmote r2) as [e2|] eqn:H2;
    [|by rewrite mapSevenTVEmote_eq in H2].
  destruct (mapSevenTVEmote r3) as [e3|] eqn:H3;
    [|by rewrite mapSevenTVEmote_eq in H3].
  assert (fetchEmoteSet axios_get A = [e1; e2; e3]) as HA'.
  { assert (mapM mapSevenTVEmote [r1; r2; r3] = Some [e1; e2; e3]) as Hm
      by (apply mapM_Some_2; repeat constructor; done).
    unfold fetchEmoteSet, fetchEmoteSet_try. fold (emoteSetUrl A).
    rewrite HA, Hdata. simpl SevenTVEmoteSet.emotes. by rewrite Hm. }
  assert (loaded config axios_get = [e1; e2; e3]) as Hloaded.
  { unfold loaded. rewrite Hids. cbn. by rewrite HA', HB'. }
  destruct (fetchEmotes_loaded axios_get order now s)
    as (s' & Hf & Hall).
  { right. by rewrite Hids. }
  { by rewrite Hids. }
  exists e1, e2, e3, s'. by rewrite Hf, Hall, Hloaded.
Qed.

End Loading.

(* ================================================================== *)
(** * Lookup *)
(* ================================================================== *)

Section Lookup.
Context `{JSString} (config : Config).

Lemma find_key_Some (l : list Emote.t) k e :
  find (fun e => String.eqb (key_of e) k) l = Some e ->
  e ∈ l /\ key_of e = k.
Proof.
  intros Hf. apply find_some in Hf as [Hin Hk].
  split; [by apply list_elem_of_In|by apply String.eqb_eq].
Qed.

Lemma find_key_None (l : list Emote.t) k :
  find (fun e => String.eqb (key_of e) k) l = None ->
  forall e, e ∈ l -> key_of e <> k.
Proof.
  intros Hf e Hin. apply list_elem_of_In in Hin.
  apply (find_none _ _ Hf) in Hin. by apply String.eqb_neq.
Qed.

Lemma find_key_absent (l : list Emote.t) k :
  (forall e, e ∈ l -> key_of e <> k) ->
  find (fun e => String.eqb (key_of e) k) l = None.
Proof.
  intros Hk. destruct (find _ l) as [e|] eqn:Hf; [|done].
  apply find_key_Some in Hf as [Hin Heq]. by destruct (Hk e Hin).
Qed.

(** A live cache entry under the normalized name is the answer. *)
Lemma findEmote_hit now q s d :
  q <> "" ->
  emoteCache s !! normalizedName q = Some d ->
  NodeCache.check now d = true ->
  (findEmote config now q s).1 = Some (NodeCache.v d).
Proof.
  intros Hq Hd Hc. rewrite findEmote_unfold by done. cbn.
  unfold NodeCache.get. by rewrite Hd, Hc.
Qed.

(** Without a live entry the answer is the first match of the scan. *)
Lemma findEmote_miss now q s :
  q <> "" ->
  (NodeCache.get now (normalizedName q) (emoteCache s)).1 = None ->
  (findEmote config now q s).1 =
    find (fun e => String.eqb (key_of e) (normalizedName q)) (allEmotes s).
Proof.
  intros Hq Hget. rewrite findEmote_unfold by done. cbn.
  destruct (NodeCache.get now _ (emoteCache s)) as [[e|] data];
    [discriminate|].
  by destruct (find _ (allEmotes s)).
Qed.

Lemma reachable_coherent s : reachable config s -> coherent s.
Proof.
  intros Hreach.
  induction Hreach
    as [|axios_get order now s r s' _ IH Hf|now q s _ IH|s _ IH|now s _ IH].
  - intros k d Hd. cbn in Hd. by rewrite lookup_empty in Hd.
  - apply fetchEmotes_Some in Hf as [(_ & _ & ->)|(_ & _ & ->)]; [done|].
    intros k d Hd Hex. cbn in *.
    destruct (populate_lookup_loaded config now _ (emoteCache s) k Hex)
      as (e & Hin & Hk & Hl).
    rewrite Hl in Hd. injection Hd as <-. done.
  - destruct (decide (q = "")) as [->|Hq]; [done|].
    rewrite findEmote_unfold by done. cbn.
    destruct (NodeCache.get now _ (emoteCache s)) as [[e|] data] eqn:Hget.
    + apply NodeCache_get_Some in Hget as [-> _]. exact IH.
    + assert (forall k d, data !! k = Some d -> emoteCache s !! k = Some d)
        as Hdata.
      { intros k d. replace data with
          (NodeCache.get now (normalizedName q) (emoteCache s)).2
          by by rewrite Hget.
        apply NodeCache_get_lookup. }
      destruct (find _ (allEmotes s)) as [e|] eqn:Hfind; cbn.
      * apply find_key_Some in Hfind as [Hin Hk].
        intros k d Hd Hex. cbn in *. unfold NodeCache.set in Hd.
        destruct (decide (normalizedName q = k)) as [<-|Hne].
        { rewrite lookup_insert_eq in Hd. injection Hd as <-. done. }
        rewrite lookup_insert_ne in Hd by done. eauto.
      * intros k d Hd Hex. cbn in *. eauto.
  - intros k d Hd. cbn in Hd. unfold NodeCache.flushAll in Hd.
    by rewrite lookup_empty in Hd.
  - intros k d Hd Hex. cbn in *. unfold NodeCache.checkData in Hd.
    apply map_lookup_filter_Some in Hd as [Hd _]. eauto.
Qed.

(** C9. [findEmote] on the empty string returns [null] and leaves the
    whole module state as it was: [allEmotes], the cache, and the journal
    of cache accesses and scans, to which nothing is added. *)
Theorem findEmote_empty_name (now : Z) (s : Registry) :
  findEmote config now "" s = (None, s).
Proof. reflexivity. Qed.

(** C3, amended. Let [e] be an Emote of [allEmotes] in a state the module
    can be in, such that every loaded Emote with the same lowercase name
    has the same [id]. Then a lookup by any non-empty string whose trimmed
    lowercase form is the lowercase name of [e] returns an Emote with the
    [id] of [e], at any time. This covers [e.name] when it is not empty
    and trimming does not change its lowercase form, and
    [e.name.toUpperCase()] when lowering it gives back the lowercase name. *)
Theorem findEmote_loaded (now : Z) (s : Registry) (e : Emote.t) :
  reachable config s ->
  e ∈ allEmotes s ->
  (forall e', e' ∈ allEmotes s -> key_of e' = key_of e ->
              Emote.id e' = Emote.id e) ->
  (forall q, q <> "" -> normalizedName q = key_of e ->
     exists r, (findEmote config now q s).1 = Some r /\
               Emote.id r = Emote.id e) /\
  (Emote.name e <> "" ->
   toLowerCase (trim (Emote.name e)) = toLowerCase (Emote.name e) ->
   exists r, (findEmote config now (Emote.name e) s).1 = Some r /\
             Emote.id r = Emote.id e) /\
  (toUpperCase (Emote.name e) <> "" ->
   toLowerCase (trim (toUpperCase (Emote.name e))) = toLowerCase (Emote.name e) ->
   exists r, (findEmote config now (toUpperCase (Emote.name e)) s).1 = Some r /\
             Emote.id r = Emote.id e).
Proof.
  intros Hreach Hin Hid.
  assert (forall q, q <> "" -> normalizedName q = key_of e ->
            exists r, (findEmote config now q s).1 = Some r /\
                      Emote.id r = Emote.id e) as Hq.
  { intros q Hne Hk.
    destruct (NodeCache.get now (normalizedName q) (emoteCache s))
      as [[x|] data] eqn:Hget.
    - apply NodeCache_get_Some in Hget as (_ & d & Hd & <- & Hc).
      exists (NodeCache.v d). split; [by apply findEmote_hit|].
      destruct (reachable_coherent s Hreach _ _ Hd) as [Hin' Hk'];
        [by eauto|].
      apply Hid; [done|congruence].
    - rewrite findEmote_miss by by rewrite ?Hget.
      destruct (find _ (allEmotes s)) as [r|] eqn:Hfind.
      + apply find_key_Some in Hfind as [Hin' Hk'].
        exists r. split; [done|]. apply Hid; [done|congruence].
      + destruct (find_key_None _ _ Hfind e Hin). done. }
  split; [exact Hq|]. split; intros Hne Hk; by apply Hq.
Qed.

(** C6, amended. With the sets [A; B] configured, let [b] be the last
    Emote of set [B] with its lowercase name. After [fetchEmotes], a
    lookup by a non-empty string whose trimmed lowercase form is that
    name returns [b], whatever set [A] holds under the same name, for as
    long as the entry written by the load is live: for ever when the TTL
    is [0], and otherwise up to [cacheTTL] seconds after the load. *)
Theorem last_write_wins
    (axios_get : string -> AxiosResult json) (order : list nat)
    (now now' : Z) (s s' : Registry) (r : list Emote.t)
    (A B : string) (l1 l2 : list Emote.t) (b : Emote.t) (q : string) :
  emoteSetIds config = [A; B] ->
  fetchEmotes config axios_get order now s = Some (r, s') ->
  fetchEmoteSet axios_get B = (l1 ++ b :: l2)%list ->
  (forall e, e ∈ l2 -> key_of e <> key_of b) ->
  q <> "" ->
  normalizedName q = key_of b ->
  cacheTTL config = 0 \/ now' <= now + cacheTTL config * 1000 ->
  (findEmote config now' q s').1 = Some b.
Proof.
  intros Hids Hf HB Hl2 Hq Hk Httl.
  apply fetchEmotes_Some in Hf as [(Hnil & _)|(_ & _ & ->)]; [congruence|].
  assert (loaded config axios_get
          = ((fetchEmoteSet axios_get A ++ l1) ++ b :: l2)%list) as Hloaded.
  { unfold loaded. rewrite Hids. cbn. rewrite HB, app_nil_r.
    by rewrite <- app_assoc. }
  rewrite (findEmote_hit now' q _ (NodeCache.wrap (cacheTTL config) now b)).
  - done.
  - done.
  - cbn. rewrite Hloaded, Hk. by apply populate_lookup_last.
  - by apply NodeCache_check_wrap.
Qed.

(** C7, amended. Right after the cache is flushed, a lookup by a
    non-empty string whose trimmed lowercase form is the lowercase name of
    some Emote of [allEmotes] reads the (empty) cache, scans [allEmotes],
    returns the first Emote with that lowercase name, and writes it to the
    cache under the normalized name. *)
Theorem findEmote_after_flush
    (now : Z) (s0 : Registry) (q : string) (e : Emote.t) :
  q <> "" ->
  e ∈ allEmotes s0 ->
  key_of e = normalizedName q ->
  exists r,
    find (fun e => String.eqb (key_of e) (normalizedName q)) (allEmotes s0)
      = Some r /\
    r ∈ allEmotes s0 /\
    key_of r = normalizedName q /\
    findEmote config now q (emoteCache_flushAll s0).2 =
      (Some r,
       {| allEmotes := allEmotes s0;
          emoteCache :=
            {[ normalizedName q := NodeCache.wrap (cacheTTL config) now r ]};
          journal := journal s0 ++ [CacheFlushAll; CacheGet (normalizedName q);
                                    Scan; CacheSet (normalizedName q)] |}).
Proof.
  intros Hq Hin Hk.
  destruct (find (fun e => String.eqb (key_of e) (normalizedName q))
                 (allEmotes s0)) as [r|] eqn:Hfind.
  - exists r. destruct (find_key_Some _ _ _ Hfind) as [Hin' Hk'].
    repeat split; try done.
    rewrite findEmote_unfold by done. cbn.
    unfold NodeCache.get, NodeCache.flushAll. rewrite lookup_empty, Hfind.
    unfold NodeCache.set. rewrite insert_empty.
    by rewrite <- app_assoc.
  - by destruct (find_key_None _ _ Hfind e Hin).
Qed.

End Lookup.

(* ================================================================== *)
(** * Stale cache entries *)
(* ================================================================== *)

Section Stale.
Context `{JSString} (config : Config).

(** Whatever the loop leaves in the cache was there before or has just
    been loaded. *)
Lemma populate_lookup_inv now l data k d :
  populate config now l data !! k = Some d ->
  data !! k = Some d \/
  exists e, e ∈ l /\ key_of e = k /\
            d = NodeCache.wrap (cacheTTL config) now e.
Proof.
  induction l as [|e l IH] using rev_ind; [by left|].
  rewrite populate_snoc. destruct (decide (key_of e = k)) as [Heq|Hne].
  - rewrite Heq, lookup_insert_eq. intros [= <-]. right. exists e.
    split; [apply elem_of_app; right; apply list_elem_of_here|done].
  - rewrite lookup_insert_ne by done. intros Hd.
    destruct (IH Hd) as [?|(e' & Hin & Hk & ->)]; [by left|].
    right. exists e'. split; [apply elem_of_app; by left|done].
Qed.

(** A cache entry whose key no Emote of [allEmotes] has is returned while
    it is live, and then no more. *)
Lemma findEmote_stale now q s d :
  q <> "" ->
  emoteCache s !! normalizedName q = Some d ->
  (forall e, e ∈ allEmotes s -> key_of e <> normalizedName q) ->
  (findEmote config now q s).1 =
    if NodeCache.check now d then Some (NodeCache.v d) else None.
Proof.
  intros Hq Hd Hk. destruct (NodeCache.check now d) eqn:Hc.
  - by apply findEmote_hit.
  - rewrite findEmote_miss; [by apply find_key_absent|done|].
    unfold NodeCache.get. by rewrite Hd, Hc.
Qed.

Lemma findEmote_absent now q s :
  q <> "" ->
  emoteCache s !! normalizedName q = None ->
  (forall e, e ∈ allEmotes s -> key_of e <> normalizedName q) ->
  (findEmote config now q s).1 = None.
Proof.
  intros Hq Hd Hk.
  rewrite findEmote_miss; [by apply find_key_absent|done|].
  unfold NodeCache.get. by rewrite Hd.
Qed.

(** What one step leaves in the journal, and in the cache: an entry was
    there before the step, or the step has written it. *)
Lemma run_step_written step s :
  exists ops,
    journal (run_step config step s) = (journal s ++ ops)%list /\
    forall k d, emoteCache (run_step config step s) !! k = Some d ->
                emoteCache s !! k = Some d \/ CacheSet k ∈ ops.
Proof.
  destruct step as [now q|axios_get order now| |now]; cbn.
  - destruct (decide (q = "")) as [->|Hq].
    { exists []. cbn. rewrite app_nil_r. eauto. }
    rewrite findEmote_unfold by done. cbn.
    destruct (NodeCache.get now _ (emoteCache s)) as [[e|] data] eqn:Hget.
    + apply NodeCache_get_Some in Hget as [-> _]. eexists. split; [done|].
      eauto.
    + assert (forall k d, data !! k = Some d -> emoteCache s !! k = Some d)
        as Hdata.
      { intros k d. replace data with
          (NodeCache.get now (normalizedName q) (emoteCache s)).2
          by by rewrite Hget.
        apply NodeCache_get_lookup. }
      destruct (find _ (allEmotes s)) as [e|]; cbn.
      * eexists. split; [done|]. intros k d Hd. unfold NodeCache.set in Hd.
        destruct (decide (normalizedName q = k)) as [<-|Hne].
        { right. do 2 apply list_elem_of_further. apply list_elem_of_here. }
        rewrite lookup_insert_ne in Hd by done. eauto.
      * eexists. split; [done|]. eauto.
  - destruct (fetchEmotes config axios_get order now s) as [[r s']|] eqn:Hf.
    + apply fetchEmotes_Some in Hf as [(_ & _ & ->)|(_ & _ & ->)].
      * exists []. rewrite app_nil_r. eauto.
      * eexists. split; [done|]. cbn. intros k d Hd.
        apply populate_lookup_inv in Hd as [Hd|(e & Hin & Hk & _)];
          [by left|right].
        apply list_elem_of_fmap. exists k. split; [done|].
        apply list_elem_of_fmap. eauto.
    + exists []. rewrite app_nil_r. eauto.
  - eexists. split; [done|]. intros k d Hd.
    unfold NodeCache.flushAll in Hd. by rewrite lookup_empty in Hd.
  - exists []. rewrite app_nil_r. split; [done|]. intros k d Hd.
    unfold NodeCache.checkData in Hd.
    apply map_lookup_filter_Some in Hd as [Hd _]. eauto.
Qed.

Lemma run_written steps s :
  exists ops,
    journal (run config steps s) = (journal s ++ ops)%list /\
    forall k d, emoteCache (run config steps s) !! k = Some d ->
                emoteCache s !! k = Some d \/ CacheSet k ∈ ops.
Proof.
  induction steps as [|step steps IH] using rev_ind.
  { exists []. cbn. rewrite app_nil_r. eauto. }
  destruct IH as (ops & Hj & Hc). rewrite run_snoc.
  destruct (run_step_written step (run config steps s)) as (ops' & Hj' & Hc').
  exists (ops ++ ops')%list. split.
  - by rewrite Hj', Hj, <- app_assoc.
  - intros k d Hd. destruct (Hc' k d Hd) as [Hd'|Hin].
    + destruct (Hc k d Hd') as [?|Hin]; [by left|right].
      apply elem_of_app. by left.
    + right. apply elem_of_app. by right.
Qed.

(** After a flush, a key is in the cache only if something has written
    it since. *)
Lemma run_after_flush steps s0 ops k :
  journal (run config steps (emoteCache_flushAll s0).2)
    = (journal (emoteCache_flushAll s0).2 ++ ops)%list ->
  CacheSet k ∉ ops ->
  emoteCache (run config steps (emoteCache_flushAll s0).2) !! k = None.
Proof.
  intros Hj Hk.
  destruct (run_written steps (emoteCache_flushAll s0).2) as (ops' & Hj' & Hc).
  rewrite Hj in Hj'. apply app_inv_head in Hj' as <-.
  destruct (emoteCache (run config steps (emoteCache_flushAll s0).2) !! k)
    as [d|] eqn:Hd; [|done].
  destruct (Hc k d Hd) as [Hd'|Hin]; [|done].
  cbn in Hd'. unfold NodeCache.flushAll in Hd'. by rewrite lookup_empty in Hd'.
Qed.

(** A lookup leaves every live entry as it is. *)
Lemma findEmote_keeps_live now q s k d :
  emoteCache s !! k = Some d ->
  NodeCache.check now d = true ->
  emoteCache (findEmote config now q s).2 !! k = Some d.
Proof.
  intros Hd Hc. destruct (decide (q = "")) as [->|Hq]; [done|].
  rewrite findEmote_unfold by done. cbn.
  destruct (NodeCache.get now _ (emoteCache s)) as [[e|] data] eqn:Hget.
  - by apply NodeCache_get_Some in Hget as [-> _].
  - assert (normalizedName q <> k /\ data !! k = Some d) as [Hne Hdata].
    { apply NodeCache_get_None in Hget
        as [[Hnone ->]|(d0 & Hd0 & Hc0 & ->)].
      - split; [congruence|done].
      - assert (normalizedName q <> k) by congruence.
        split; [done|]. by rewrite lookup_delete_ne. }
    destruct (find _ (allEmotes s)); cbn; [|done].
    unfold NodeCache.set. by rewrite lookup_insert_ne.
Qed.

(** C10, amended. [fetchEmotes] writes the cache entries under the
    lowercase names of the Emotes it loads and removes none. So an entry
    from before the load under a key [k] that is the lowercase name of no
    Emote of the new [allEmotes] is still there, and a lookup normalizing
    to [k] returns its Emote while the entry is live and [null] once it
    has expired. [refreshEmotes] is what flushes: its first act empties
    the cache, and whatever then runs until its load resumes, the key [k]
    stays out of the cache unless one of these steps writes it; when none
    does and the load brings no Emote of that name, the lookup returns
    [null] after the refresh. Neither a lookup nor the timer of the cache
    takes away an entry that is live. *)
Theorem fetchEmotes_keeps_other_entries
    (axios_get : string -> AxiosResult json) (order : list nat) (now : Z)
    (s s' : Registry) (r : list Emote.t) (k : string) :
  fetchEmotes config axios_get order now s = Some (r, s') ->
  (forall e, e ∈ allEmotes s' -> key_of e <> k) ->
  emoteCache s' !! k = emoteCache s !! k /\
  (forall k', is_Some (emoteCache s !! k') -> is_Some (emoteCache s' !! k')) /\
  (forall d q now',
     emoteCache s !! k = Some d -> q <> "" -> normalizedName q = k ->
     (findEmote config now' q s').1 =
       if NodeCache.check now' d then Some (NodeCache.v d) else None) /\
  (forall s0, emoteCache (emoteCache_flushAll s0).2 = ∅) /\
  (forall s0 meanwhile ops axios_get2 order2 now2 r2 s2,
     journal (run config meanwhile (emoteCache_flushAll s0).2)
       = (journal (emoteCache_flushAll s0).2 ++ ops)%list ->
     CacheSet k ∉ ops ->
     refreshEmotes config axios_get2 order2 now2 meanwhile s0 = Some (r2, s2) ->
     (forall e, e ∈ allEmotes s2 -> key_of e <> k) ->
     emoteCache s2 !! k = None /\
     (forall q now', q <> "" -> normalizedName q = k ->
        (findEmote config now' q s2).1 = None)) /\
  (forall now' q s0 k' d,
     emoteCache s0 !! k' = Some d -> NodeCache.check now' d = true ->
     emoteCache (findEmote config now' q s0).2 !! k' = Some d) /\
  (forall now' s0 k' d,
     emoteCache s0 !! k' = Some d -> NodeCache.check now' d = true ->
     emoteCache (emoteCache_checkData now' s0).2 !! k' = Some d).
Proof.
  intros Hf Hk.
  assert (emoteCache s' !! k = emoteCache s !! k) as Hsame.
  { apply fetchEmotes_Some in Hf as [(_ & _ & ->)|(_ & _ & ->)]; [done|].
    cbn in *. by apply populate_lookup_other. }
  split; [done|]. split; [|split; [|split; [done|split; [|split]]]].
  - intros k' Hk'.
    apply fetchEmotes_Some in Hf as [(_ & _ & ->)|(_ & _ & ->)]; [done|].
    cbn. by apply populate_lookup_is_Some.
  - intros d q now' Hd Hq <-. apply findEmote_stale; [done| |done].
    by rewrite Hsame.
  - intros s0 meanwhile ops axios_get2 order2 now2 r2 s2 Hj Hops Hr Hk2.
    unfold refreshEmotes in Hr. cbn in Hr.
    pose proof (run_after_flush meanwhile s0 ops k Hj Hops) as Hmid.
    cbn in Hmid.
    assert (emoteCache s2 !! k = None) as Hnone.
    { apply fetchEmotes_Some in Hr as [(_ & _ & ->)|(_ & _ & ->)]; [done|].
      cbn in *. by rewrite populate_lookup_other. }
    split; [done|]. intros q now' Hq <-. by apply findEmote_absent.
  - intros now' q s0 k' d. apply findEmote_keeps_live.
  - intros now' s0 k' d Hd Hc. cbn. unfold NodeCache.checkData.
    by apply map_lookup_filter_Some_2.
Qed.

End Stale.

(* ================================================================== *)
(** * Image URLs *)
(* ================================================================== *)

(** C8. [getEmoteUrl] builds [{cdnBaseUrl}/{emoteId}/{size}.{format}],
    an omitted size being [3x] and an omitted format [webp];
    [fetchEmoteImage] requests that URL and, when the request succeeds,
    returns the bytes received with the content type [image/webp],
    [image/avif] or [image/gif] of the format. *)
Theorem getEmoteUrl_and_contentType
    (axios_get : string -> AxiosResult (list Byte.byte))
    (emoteId : string) (size : option Size) (format : option Format)
    (data : list Byte.byte) :
  axios_get (getEmoteUrl emoteId size format) = AxiosOk data ->
  getEmoteUrl emoteId size format =
    cdnBaseUrl +:+ "/" +:+ emoteId +:+ "/"
      +:+ Size_to_string (default size_3x size) +:+ "."
      +:+ Format_to_string (default webp format) /\
  getEmoteUrl emoteId None None =
    cdnBaseUrl +:+ "/" +:+ emoteId +:+ "/3x.webp" /\
  fetchEmoteImage axios_get emoteId size format =
    Return {| buffer := data;
              contentType := match default webp format with
                             | webp => "image/webp"
                             | avif => "image/avif"
                             | gif => "image/gif"
                             end |} /\
  getEmoteUrl "abc123" (Some size_2x) (Some gif) =
    cdnBaseUrl +:+ "/abc123/2x.gif" /\
  (forall bytes, axios_get (cdnBaseUrl +:+ "/abc123/2x.gif") = AxiosOk bytes ->
     fetchEmoteImage axios_get "abc123" (Some size_2x) (Some gif) =
       Return {| buffer := bytes; contentType := "image/gif" |}).
Proof.
  intros Hget. split; [done|]. split; [done|]. split; [|split; [done|]].
  - unfold fetchEmoteImage.
    change (getEmoteUrl emoteId (Some (default size_3x size))
                        (Some (default webp format)))
      with (getEmoteUrl emoteId size format).
    rewrite Hget. by destruct format as [[]|].
  - intros bytes Hbytes. unfold fetchEmoteImage.
    change (getEmoteUrl "abc123" (Some (default size_3x (Some size_2x)))
                        (Some (default webp (Some gif))))
      with (cdnBaseUrl +:+ "/abc123/2x.gif").
    by rewrite Hbytes.
Qed.

(* ================================================================== *)
(** * Runs on concrete inputs *)
(* ================================================================== *)

Section Runs.
#[local] Existing Instance ascii_string.

(** A first load of two sets whose requests settle in reverse order. *)
Lemma fetchEmotes_replaces_allEmotes_witness :
  let config := sets_A_B 3600 in
  let net := serving [("A", [raw_emote "1" "a"; raw_emote "2" "b"]);
                      ("B", [raw_emote "3" "c"])] in
  loaded config net
    = [plain_emote "1" "a"; plain_emote "2" "b"; plain_emote "3" "c"] /\
  (exists s', fetchEmotes config net [1; 0]%nat 0 initial
                = Some (loaded config net, s') /\
              allEmotes s' = loaded config net) /\
  (exists s', refreshEmotes config net [1; 0]%nat 0 [] initial
                = Some (loaded config net, s') /\
              allEmotes s' = loaded config net) /\
  (exists s', refreshEmotes config net [1; 0]%nat 0
                [StepFind 0 "a"; StepCheck 0] initial
                = Some (loaded config net, s') /\
              allEmotes s' = loaded config net).
Proof.
  intros config net. split; [reflexivity|].
  destruct (fetchEmotes_replaces_allEmotes config net [1; 0]%nat 0 initial)
    as (Hfetch & Hrefresh & _).
  - left. apply reach_initial.
  - apply perm_swap.
  - split; [exact Hfetch|].
    split; [exact (Hrefresh [])|exact (Hrefresh [StepFind 0 "a"; StepCheck 0])].
Defined.

(** Set [A] answers with three records; the request for set [B] fails. *)
Lemma degrade_to_empty_witness :
  let net := serving [("A", [raw_emote "1" "a"; raw_emote "2" "b";
                             raw_emote "3" "c"])] in
  let valid id name :=
    SevenTVEmote.mk id name None None (SevenTVEmote.mk_data None None) None in
  net (emoteSetUrl "B") = AxiosFail /\
  exists e1 e2 e3 s',
    mapSevenTVEmote (valid "1" "a") = Some e1 /\
    mapSevenTVEmote (valid "2" "b") = Some e2 /\
    mapSevenTVEmote (valid "3" "c") = Some e3 /\
    fetchEmotes (sets_A_B 3600) net [0; 1]%nat 0 initial
      = Some ([e1; e2; e3], s') /\
    allEmotes s' = [e1; e2; e3].
Proof.
  split; [reflexivity|].
  apply (proj2 (proj2 (degrade_to_empty (sets_A_B 3600)))
           _ "A" "B" [0; 1]%nat 0 initial
           (set_response [raw_emote "1" "a"; raw_emote "2" "b";
                          raw_emote "3" "c"])).
  - reflexivity.
  - reflexivity.
  - reflexivity.
  - left. reflexivity.
  - apply Permutation_refl.
Defined.

(** C3, as stated, fails: two sets each hold an Emote named [X]; the one
    of set [A] is in [allEmotes] after the load, and a lookup by its name,
    in either case, returns the Emote of set [B], whose [id] is another. *)
Lemma findEmote_name_collision :
  let config := sets_A_B 3600 in
  let net := serving [("A", [raw_emote "1" "X"]); ("B", [raw_emote "2" "X"])] in
  let e := plain_emote "1" "X" in
  let s := after_load [plain_emote "1" "X"; plain_emote "2" "X"]
             [("x", NodeCache.mk_entry (plain_emote "2" "X") 3600000)]
             ["x"; "x"] in
  fetchEmotes config net [0; 1]%nat 0 initial
    = Some ([plain_emote "1" "X"; plain_emote "2" "X"], s) /\
  e ∈ allEmotes s /\
  (findEmote config 1 (Emote.name e) s).1 = Some (plain_emote "2" "X") /\
  (findEmote config 1 (toUpperCase (Emote.name e)) s).1
    = Some (plain_emote "2" "X") /\
  Emote.id (plain_emote "2" "X") <> Emote.id e.
Proof.
  repeat split; try reflexivity.
  - apply list_elem_of_here.
  - discriminate.
Qed.

(** The other two conditions of the amended C3: a loaded Emote whose name
    begins with a space, and one whose name is empty, are not found by
    their own name. *)
Example findEmote_untrimmed_name :
  let config := set_A 3600 in
  let net := serving [("A", [raw_emote "1" " X"; raw_emote "2" ""])] in
  let s := after_load [plain_emote "1" " X"; plain_emote "2" ""]
             [(" x", NodeCache.mk_entry (plain_emote "1" " X") 3600000);
              ("", NodeCache.mk_entry (plain_emote "2" "") 3600000)]
             [" x"; ""] in
  fetchEmotes config net [0]%nat 0 initial
    = Some ([plain_emote "1" " X"; plain_emote "2" ""], s) /\
  (findEmote config 1 " X" s).1 = None /\
  (findEmote config 1 "" s).1 = None.
Proof. repeat split; reflexivity. Qed.

(** Two Emotes of different names, looked up after the entries written
    by the load have expired. *)
Lemma findEmote_loaded_witness :
  let config := sets_A_B 3600 in
  let s := after_load [plain_emote "1" "Kappa"; plain_emote "2" "PogChamp"]
             [("kappa", NodeCache.mk_entry (plain_emote "1" "Kappa") 3600000);
              ("pogchamp", NodeCache.mk_entry (plain_emote "2" "PogChamp") 3600000)]
             ["kappa"; "pogchamp"] in
  (exists r, (findEmote config 5000000 "Kappa" s).1 = Some r /\
             Emote.id r = "1") /\
  (exists r, (findEmote config 5000000 "KAPPA" s).1 = Some r /\
             Emote.id r = "1").
Proof.
  intros config s.
  pose (net := serving [("A", [raw_emote "1" "Kappa"]);
                        ("B", [raw_emote "2" "PogChamp"])]).
  assert (reachable config s) as Hreach.
  { apply (reach_fetch config net [0; 1]%nat 0 initial
             [plain_emote "1" "Kappa"; plain_emote "2" "PogChamp"] s).
    - apply reach_initial.
    - reflexivity. }
  destruct (findEmote_loaded config 5000000 s (plain_emote "1" "Kappa") Hreach)
    as (_ & Hname & Hupper).
  - apply list_elem_of_here.
  - intros e' Hin Hkey.
    apply elem_of_cons in Hin as [->|Hin]; [reflexivity|].
    apply list_elem_of_singleton in Hin as ->. discriminate Hkey.
  - split.
    + apply Hname; [discriminate|reflexivity].
    + apply Hupper; [discriminate|reflexivity].
Defined.

(** C6, as stated, fails: with a TTL of one second, two seconds after the
    load the entry written for set [B] has expired, and the lookup of [x]
    returns the first match of the scan, the Emote of set [A]. *)
Lemma first_match_after_expiry :
  let config := sets_A_B 1 in
  let net := serving [("A", [raw_emote "1" "X"]); ("B", [raw_emote "2" "X"])] in
  let s := after_load [plain_emote "1" "X"; plain_emote "2" "X"]
             [("x", NodeCache.mk_entry (plain_emote "2" "X") 1000)]
             ["x"; "x"] in
  fetchEmoteSet net "A" = [plain_emote "1" "X"] /\
  fetchEmoteSet net "B" = [plain_emote "2" "X"] /\
  fetchEmotes config net [0; 1]%nat 0 initial
    = Some ([plain_emote "1" "X"; plain_emote "2" "X"], s) /\
  (findEmote config 2000 "x" s).1 = Some (plain_emote "1" "X").
Proof. repeat split; reflexivity. Qed.

(** Both sets hold an Emote named [X]; one second after the load the
    lookup of [x] returns the one of set [B]. *)
Lemma last_write_wins_witness :
  let config := sets_A_B 3600 in
  let s' := after_load [plain_emote "1" "X"; plain_emote "2" "X"]
              [("x", NodeCache.mk_entry (plain_emote "2" "X") 3600000)]
              ["x"; "x"] in
  (findEmote config 1000 "x" s').1 = Some (plain_emote "2" "X").
Proof.
  intros config s'.
  pose (net := serving [("A", [raw_emote "1" "X"]); ("B", [raw_emote "2" "X"])]).
  apply (last_write_wins config net [0; 1]%nat 0 1000 initial s'
           [plain_emote "1" "X"; plain_emote "2" "X"] "A" "B"
           [] [] (plain_emote "2" "X") "x").
  - reflexivity.
  - reflexivity.
  - reflexivity.
  - intros e Hin. by apply not_elem_of_nil in Hin.
  - discriminate.
  - reflexivity.
  - right. vm_compute. discriminate.
Defined.

(** C7, as stated, fails: the lowercase form of the name [ X] (with a
    leading space) is the lowercase name of the one loaded Emote, but
    after a flush the lookup by that name finds nothing, since
    [findEmote] trims the name before it compares. *)
Lemma findEmote_untrimmed_after_flush :
  let config := set_A 3600 in
  let net := serving [("A", [raw_emote "1" " X"])] in
  let e := plain_emote "1" " X" in
  let s := after_load [e]
             [(" x", NodeCache.mk_entry e 3600000)] [" x"] in
  let flushed := (emoteCache_flushAll s).2 in
  fetchEmotes config net [0]%nat 0 initial = Some ([e], s) /\
  emoteCache flushed = ∅ /\
  e ∈ allEmotes flushed /\
  toLowerCase " X" = toLowerCase (Emote.name e) /\
  (findEmote config 1 " X" flushed).1 = None.
Proof.
  repeat split; try reflexivity.
  apply list_elem_of_here.
Qed.

(** After a flush, the lookup of [ x ] (with spaces around) finds the
    Emote named [X] by the scan and caches it under [x]. *)
Lemma findEmote_after_flush_witness :
  let config := set_A 3600 in
  let e := plain_emote "1" "X" in
  let s := after_load [e] [("x", NodeCache.mk_entry e 3600000)] ["x"] in
  findEmote config 1 " x " (emoteCache_flushAll s).2 =
    (Some e,
     {| allEmotes := [e];
        emoteCache := {[ "x" := NodeCache.mk_entry e 3600001 ]};
        journal := [CacheSet "x"; CacheFlushAll; CacheGet "x"; Scan;
                    CacheSet "x"] |}).
Proof.
  intros config e s.
  destruct (findEmote_after_flush config 1 s " x " e)
    as (r & Hfind & _ & _ & Heq).
  - discriminate.
  - apply list_elem_of_here.
  - reflexivity.
  - rewrite Heq. injection Hfind as <-. reflexivity.
Defined.

(** C10, as stated, fails: the cache holds a live entry for the Emote
    with [id] 1, named [X]; a second load brings another Emote of the
    same name instead. The first Emote is absent from the new [allEmotes],
    and yet the lookup does not return it: the load has overwritten the
    entry, and the lookup returns the new Emote. *)
Lemma reloaded_name_overwrites_entry :
  let config := set_A 3600 in
  let net1 := serving [("A", [raw_emote "1" "X"])] in
  let net2 := serving [("A", [raw_emote "2" "X"])] in
  let e1 := plain_emote "1" "X" in
  let e2 := plain_emote "2" "X" in
  let s1 := after_load [e1] [("x", NodeCache.mk_entry e1 3600000)] ["x"] in
  let s2 := after_load [e2] [("x", NodeCache.mk_entry e2 3600010)] ["x"; "x"] in
  fetchEmotes config net1 [0]%nat 0 initial = Some ([e1], s1) /\
  emoteCache s1 !! "x" = Some (NodeCache.mk_entry e1 3600000) /\
  NodeCache.check 20 (NodeCache.mk_entry e1 3600000) = true /\
  fetchEmotes config net2 [0]%nat 10 s1 = Some ([e2], s2) /\
  (e1 ∉ allEmotes s2) /\
  (findEmote config 20 "x" s2).1 = Some e2 /\
  e2 <> e1.
Proof.
  repeat split; try reflexivity.
  - intros Hin. apply list_elem_of_singleton in Hin. discriminate Hin.
  - discriminate.
Qed.

(** The cache holds the Emote named [X]; the next load brings only an
    Emote named [Y]. The lookup of [x] still returns the first while its
    entry is live, and nothing afterwards. *)
Lemma fetchEmotes_keeps_other_entries_witness :
  let config := set_A 3600 in
  let e1 := plain_emote "1" "X" in
  let e3 := plain_emote "3" "Y" in
  let net := serving [("A", [raw_emote "3" "Y"])] in
  let s' := after_load [e3]
              [("x", NodeCache.mk_entry e1 3600000);
               ("y", NodeCache.mk_entry e3 3600010)] ["x"; "y"] in
  let s2 :=
    {| allEmotes := [e3];
       emoteCache := {[ "y" := NodeCache.mk_entry e3 3600015 ]};
       journal := [CacheSet "x"; CacheSet "y"; CacheFlushAll;
                   CacheGet "y"; Scan; CacheSet "y"; CacheSet "y"] |} in
  (e1 ∉ allEmotes s') /\
  (findEmote config 20 "x" s').1 = Some e1 /\
  (findEmote config 3600001 "x" s').1 = None /\
  refreshEmotes config net [0]%nat 15 [StepFind 12 "y"] s' = Some ([e3], s2) /\
  (findEmote config 20 "x" s2).1 = None.
Proof.
  intros config e1 e3 net s' s2.
  pose (s := after_load [e1] [("x", NodeCache.mk_entry e1 3600000)] ["x"]).
  assert (fetchEmotes config net [0]%nat 10 s = Some ([e3], s')) as Hload
    by reflexivity.
  assert (refreshEmotes config net [0]%nat 15 [StepFind 12 "y"] s'
          = Some ([e3], s2)) as Hrefresh by reflexivity.
  assert (forall e, e ∈ [e3] -> key_of e <> "x") as Hk.
  { intros e Hin. apply list_elem_of_singleton in Hin as ->. discriminate. }
  destruct (fetchEmotes_keeps_other_entries config net [0]%nat 10 s s' [e3] "x"
              Hload Hk) as (_ & _ & Hfind & _ & Hflushed & _).
  split.
  { intros Hin. apply list_elem_of_singleton in Hin. discriminate Hin. }
  split.
  { rewrite (Hfind (NodeCache.mk_entry e1 3600000) "x" 20);
      [reflexivity|reflexivity|discriminate|reflexivity]. }
  split.
  { rewrite (Hfind (NodeCache.mk_entry e1 3600000) "x" 3600001);
      [reflexivity|reflexivity|discriminate|reflexivity]. }
  split; [exact Hrefresh|].
  destruct (Hflushed s' [StepFind 12 "y"] [CacheGet "y"; Scan; CacheSet "y"]
              net [0]%nat 15 [e3] s2) as [_ Hq].
  - reflexivity.
  - intros Hin.
    repeat (apply elem_of_cons in Hin as [Heq|Hin]; [discriminate Heq|]).
    by apply not_elem_of_nil in Hin.
  - exact Hrefresh.
  - exact Hk.
  - apply Hq; [discriminate|reflexivity].
Defined.

(** The URL and content type for [abc123] at [2x] as [gif], and with the
    defaults. *)
Lemma getEmoteUrl_and_contentType_witness :
  let cdn := fun _ : string => AxiosOk [Byte.x47; Byte.x49; Byte.x46] in
  getEmoteUrl "abc123" (Some size_2x) (Some gif)
    = "https://cdn.7tv.app/emote/abc123/2x.gif" /\
  getEmoteUrl "abc123" None None
    = "https://cdn.7tv.app/emote/abc123/3x.webp" /\
  fetchEmoteImage cdn "abc123" (Some size_2x) (Some gif)
    = Return {| buffer := [Byte.x47; Byte.x49; Byte.x46];
                contentType := "image/gif" |} /\
  fetchEmoteImage cdn "abc123" None None
    = Return {| buffer := [Byte.x47; Byte.x49; Byte.x46];
                contentType := "image/webp" |}.
Proof.
  intros cdn.
  destruct (getEmoteUrl_and_contentType cdn "abc123" (Some size_2x) (Some gif)
              [Byte.x47; Byte.x49; Byte.x46] eq_refl)
    as (Hurl & _ & Himg & _).
  destruct (getEmoteUrl_and_contentType cdn "abc123" None None
              [Byte.x47; Byte.x49; Byte.x46] eq_refl)
    as (_ & Hurl' & Himg' & _).
  split; [exact Hurl|]. split; [exact Hurl'|]. split; [exact Himg|exact Himg'].
Defined.

End Runs.

(* ================================================================== *)
(** * More on the service *)
(* ================================================================== *)

(** X1. [mapSevenTVEmote] always succeeds on a validated record, and the
    Emote it builds never has an empty owner: the owner is the upstream
    user name when that is a non-empty string, and [Desconhecido] when the
    record has no owner or an owner with an empty user name. Absent tags
    become the empty list and an absent animation flag [false]; the
    visibility and the MIME type are carried over. *)
Theorem mapSevenTVEmote_defaults (emote : SevenTVEmote.t) :
  exists e,
    mapSevenTVEmote emote = Some e /\
    Emote.owner e <> "" /\
    (forall o, SevenTVEmote.owner emote = Some o ->
       SevenTVEmote.username o <> "" ->
       Emote.owner e = SevenTVEmote.username o) /\
    (SevenTVEmote.owner emote = None \/
     SevenTVEmote.owner emote = Some (SevenTVEmote.mk_owner "") ->
     Emote.owner e = "Desconhecido") /\
    Emote.tags e = default [] (SevenTVEmote.tags emote) /\
    Emote.animated e
      = default false (SevenTVEmote.animated (SevenTVEmote.data emote)) /\
    Emote.visibility e = SevenTVEmote.visibility emote /\
    Emote.mime e = SevenTVEmote.mime (SevenTVEmote.data emote).
Proof.
  eexists. split; [apply mapSevenTVEmote_eq|]. cbn.
  destruct emote as [i n o vis [mi an] tg]. cbn.
  split; [|split; [|split]].
  - destruct o as [[u]|]; cbn; [|done].
    destruct (String.eqb_spec u ""); done.
  - intros o' [= ->] Hu. cbn in *.
    destruct (String.eqb_spec (SevenTVEmote.username o') ""); done.
  - by intros [->| ->].
  - by destruct tg, an.
Qed.

Section ServiceExtras.
Context `{JSString} (config : Config).

(** Every cache entry sits under the lowercase name of its Emote. *)
Lemma reachable_keyed s :
  reachable config s ->
  forall k d, emoteCache s !! k = Some d -> key_of (NodeCache.v d) = k.
Proof.
  intros Hreach.
  induction Hreach
    as [|axios_get order now s r s' _ IH Hf|now q s _ IH|s _ IH|now s _ IH].
  - intros k d Hd. cbn in Hd. by rewrite lookup_empty in Hd.
  - apply fetchEmotes_Some in Hf as [(_ & _ & ->)|(_ & _ & ->)]; [done|].
    intros k d Hd. cbn in Hd.
    apply populate_lookup_inv in Hd as [Hd|(e & _ & Hk & ->)]; [eauto|done].
  - destruct (decide (q = "")) as [->|Hq]; [done|].
    rewrite findEmote_unfold by done. cbn.
    destruct (NodeCache.get now _ (emoteCache s)) as [[e|] data] eqn:Hget.
    + apply NodeCache_get_Some in Hget as [-> _]. exact IH.
    + assert (forall k d, data !! k = Some d -> emoteCache s !! k = Some d)
        as Hdata.
      { intros k d. replace data with
          (NodeCache.get now (normalizedName q) (emoteCache s)).2
          by by rewrite Hget.
        apply NodeCache_get_lookup. }
      destruct (find _ (allEmotes s)) as [e|] eqn:Hfind; cbn.
      * apply find_key_Some in Hfind as [_ Hk].
        intros k d Hd. unfold NodeCache.set in Hd.
        destruct (decide (normalizedName q = k)) as [<-|Hne].
        { rewrite lookup_insert_eq in Hd. by injection Hd as <-. }
        rewrite lookup_insert_ne in Hd by done. eauto.
      * eauto.
  - intros k d Hd. cbn in Hd. unfold NodeCache.flushAll in Hd.
    by rewrite lookup_empty in Hd.
  - intros k d Hd. cbn in Hd. unfold NodeCache.checkData in Hd.
    apply map_lookup_filter_Some in Hd as [Hd _]. eauto.
Qed.

(** An Emote that [findEmote] returns has the lowercase name that was
    looked up. *)
Lemma findEmote_Some_key now q s e :
  reachable config s ->
  (findEmote config now q s).1 = Some e ->
  q <> "" /\ key_of e = normalizedName q.
Proof.
  intros Hreach Hfind.
  destruct (decide (q = "")) as [->|Hq]; [discriminate|].
  split; [done|].
  rewrite findEmote_unfold in Hfind by done. cbn in Hfind.
  destruct (NodeCache.get now _ (emoteCache s)) as [[x|] data] eqn:Hget.
  - injection Hfind as ->.
    apply NodeCache_get_Some in Hget as (_ & d & Hd & <- & _).
    by eapply reachable_keyed.
  - destruct (find _ (allEmotes s)) as [x|] eqn:Hscan; [|discriminate].
    injection Hfind as ->. by apply find_key_Some in Hscan as [_ Hk].
Qed.

(** X2. In every state the module can be in, an Emote returned by
    [findEmote] has the name that was asked for, up to case and the
    white space around the query: its lowercase name is the trimmed,
    lowercased query, which is not the empty string. This holds for a
    cache hit on a stale entry too. *)
Theorem findEmote_returns_matching_name
    (now : Z) (q : string) (s : Registry) (e : Emote.t) :
  reachable config s ->
  (findEmote config now q s).1 = Some e ->
  q <> "" /\ toLowerCase (Emote.name e) = toLowerCase (trim q).
Proof. apply findEmote_Some_key. Qed.

(** X3. The cache reads through: when the TTL is not negative, a lookup
    that has found an Emote, repeated at once, returns the same Emote
    from the cache. The second lookup reads the cache, does not scan
    [allEmotes] and writes nothing. *)
Theorem findEmote_twice (now : Z) (q : string) (s : Registry) (e : Emote.t) :
  0 <= cacheTTL config ->
  (findEmote config now q s).1 = Some e ->
  let s1 := (findEmote config now q s).2 in
  findEmote config now q s1 =
    (Some e, {| allEmotes := allEmotes s1;
                emoteCache := emoteCache s1;
                journal := journal s1 ++ [CacheGet (normalizedName q)] |}).
Proof.
  intros Httl Hfind s1.
  destruct (decide (q = "")) as [->|Hq]; [discriminate|].
  assert (NodeCache.get now (normalizedName q) (emoteCache s1)
          = (Some e, emoteCache s1)) as Hget1.
  { unfold s1. rewrite findEmote_unfold in Hfind |- * by done.
    cbn in Hfind |- *.
    destruct (NodeCache.get now _ (emoteCache s)) as [[x|] data] eqn:Hget.
    - injection Hfind as ->. cbn.
      by apply NodeCache_get_Some in Hget as Hdata; destruct Hdata as [-> _].
    - destruct (find _ (allEmotes s)) as [x|] eqn:Hscan; [|discriminate].
      injection Hfind as ->. cbn.
      unfold NodeCache.get, NodeCache.set. rewrite lookup_insert_eq.
      rewrite NodeCache_check_wrap; [done|].
      destruct (decide (cacheTTL config = 0)); [by left|right; lia]. }
  rewrite findEmote_unfold by done. cbn. by rewrite Hget1.
Qed.

(** X4. [findEmote] never changes [allEmotes], and a lookup that returns
    [null] adds no entry to the cache and changes none: the cache is then
    as it was, but for the entry under the normalized name when that
    entry, which the lookup has read, had expired; that one is dropped. *)
Theorem findEmote_frame (now : Z) (q : string) (s : Registry) :
  allEmotes (findEmote config now q s).2 = allEmotes s /\
  ((findEmote config now q s).1 = None ->
   (forall k d, emoteCache (findEmote config now q s).2 !! k = Some d ->
                emoteCache s !! k = Some d) /\
   (emoteCache (findEmote config now q s).2 = emoteCache s \/
    exists d, emoteCache s !! normalizedName q = Some d /\
              NodeCache.check now d = false /\
              emoteCache (findEmote config now q s).2
                = delete (normalizedName q) (emoteCache s))).
Proof.
  split; [apply findEmote_allEmotes|].
  destruct (decide (q = "")) as [->|Hq]; [by eauto|].
  rewrite findEmote_unfold by done. cbn.
  destruct (NodeCache.get now _ (emoteCache s)) as [[x|] data] eqn:Hget;
    [discriminate|].
  destruct (find _ (allEmotes s)) as [x|]; [discriminate|].
  intros _. cbn. split.
  - intros k d.
    replace data with (NodeCache.get now (normalizedName q) (emoteCache s)).2
      by by rewrite Hget.
    apply NodeCache_get_lookup.
  - apply NodeCache_get_None in Hget as [[_ ->]|(d & Hd & Hc & ->)];
      [by left|right; eauto].
Qed.

(** A promise that never settles keeps its slot empty. *)
Lemma settle_untouched {A} (promises : list A) values order j :
  j ∉ order ->
  foldl (settle promises) values order !! j = values !! j.
Proof.
  revert values. induction order as [|i order IH]; intros values Hj; [done|].
  apply not_elem_of_cons in Hj as [Hne Hj]. cbn. rewrite IH by done.
  unfold settle. destruct (promises !! i); [|done].
  by rewrite list_lookup_insert_ne.
Qed.

Lemma Promise_all_pending {A} (promises : list A) order j :
  (j < length promises)%nat -> j ∉ order ->
  Promise_all order promises = None.
Proof.
  intros Hlt Hj. unfold Promise_all. apply mapM_None, Exists_exists.
  exists None. split; [|done].
  apply (list_elem_of_lookup_2 _ j).
  rewrite settle_untouched by done. by apply lookup_replicate_2.
Qed.

(** X5. [fetchEmotes] waits for every request: as long as one of the
    requests it has started has not settled, it does not resume, whatever
    the other requests have answered. No request has a timeout. *)
Theorem fetchEmotes_waits_for_all
    (axios_get : string -> AxiosResult json) (order : list nat) (now : Z)
    (s : Registry) (j : nat) :
  (j < length (emoteSetIds config))%nat ->
  j ∉ order ->
  fetchEmotes config axios_get order now s = None.
Proof.
  intros Hlt Hj. unfold fetchEmotes.
  destruct (Nat.eqb_spec (length (emoteSetIds config)) 0) as [Hz|_]; [lia|].
  rewrite (Promise_all_pending _ order j); [done| |done].
  by rewrite length_fmap.
Qed.

(** X6. After [refreshEmotes] the lowercase name of every Emote just
    loaded is a key of the cache, with an entry written by this load, and
    every other key has been written between the flush and the load, by
    a lookup or by another load. So when nothing has written to the cache
    in between, the keys are exactly the lowercase names of the Emotes
    just loaded. *)
Theorem refreshEmotes_cache_keys
    (axios_get : string -> AxiosResult json) (order : list nat) (now : Z)
    (meanwhile : list Step) (ops : list Op)
    (s s' : Registry) (r : list Emote.t) :
  journal (run config meanwhile (emoteCache_flushAll s).2)
    = (journal (emoteCache_flushAll s).2 ++ ops)%list ->
  refreshEmotes config axios_get order now meanwhile s = Some (r, s') ->
  (forall k, (exists e, e ∈ r /\ key_of e = k) ->
             is_Some (emoteCache s' !! k)) /\
  (forall k, is_Some (emoteCache s' !! k) ->
             (exists e, e ∈ r /\ key_of e = k) \/ CacheSet k ∈ ops) /\
  (forall k d, emoteCache s' !! k = Some d ->
     (exists e, e ∈ r /\ key_of e = k) ->
     d = NodeCache.wrap (cacheTTL config) now (NodeCache.v d)) /\
  ((forall k, CacheSet k ∉ ops) ->
   forall k, is_Some (emoteCache s' !! k) <->
             exists e, e ∈ r /\ key_of e = k).
Proof.
  intros Hj Hr. unfold refreshEmotes in Hr. cbn in Hr.
  assert (forall k, is_Some (emoteCache
                      (run config meanwhile (emoteCache_flushAll s).2) !! k) ->
                    CacheSet k ∈ ops) as Hmid.
  { intros k [d Hd].
    destruct (run_written config meanwhile (emoteCache_flushAll s).2)
      as (ops' & Hj' & Hc).
    rewrite Hj in Hj'. apply app_inv_head in Hj' as <-.
    destruct (Hc k d Hd) as [Hd'|Hin]; [|done].
    cbn in Hd'. unfold NodeCache.flushAll in Hd'.
    by rewrite lookup_empty in Hd'. }
  cbn in Hmid.
  assert ((forall k, (exists e, e ∈ r /\ key_of e = k) ->
                     is_Some (emoteCache s' !! k)) /\
          (forall k, is_Some (emoteCache s' !! k) ->
                     (exists e, e ∈ r /\ key_of e = k) \/ CacheSet k ∈ ops) /\
          (forall k d, emoteCache s' !! k = Some d ->
             (exists e, e ∈ r /\ key_of e = k) ->
             d = NodeCache.wrap (cacheTTL config) now (NodeCache.v d)))
    as (Hloaded & Hkeys & Hentry).
  { apply fetchEmotes_Some in Hr as [(_ & -> & ->)|(_ & -> & ->)]; cbn.
    - split; [|split].
      + intros k (e & Hin & _). by apply not_elem_of_nil in Hin.
      + intros k Hsome. right. by apply Hmid.
      + intros k d _ (e & Hin & _). by apply not_elem_of_nil in Hin.
    - split; [|split].
      + intros k Hex.
        destruct (populate_lookup_loaded config now _
                    (emoteCache (run config meanwhile
                                   (emoteCache_flushAll s).2)) k Hex)
          as (e & _ & _ & Hl).
        cbn in Hl. rewrite Hl. eauto.
      + intros k [d Hd].
        apply populate_lookup_inv in Hd as [Hd|(e & Hin & Hk & _)].
        * right. apply Hmid. eauto.
        * left. eauto.
      + intros k d Hd Hex.
        destruct (populate_lookup_loaded config now _
                    (emoteCache (run config meanwhile
                                   (emoteCache_flushAll s).2)) k Hex)
          as (e & _ & _ & Hl).
        cbn in Hl. rewrite Hl in Hd. by injection Hd as <-. }
  split; [done|]. split; [done|]. split; [done|].
  intros Hnone k. split; [|apply Hloaded].
  intros Hsome. destruct (Hkeys k Hsome) as [?|Hin]; [done|].
  by destruct (Hnone k).
Qed.

(** What the loop writes under the key of a loaded Emote does not depend
    on what the cache held. *)
Lemma populate_lookup_ext now l data data' k :
  (exists e, e ∈ l /\ key_of e = k) ->
  populate config now l data !! k = populate config now l data' !! k.
Proof.
  induction l as [|e l IH] using rev_ind; intros (e0 & Hin & Hk).
  { by apply not_elem_of_nil in Hin. }
  rewrite !populate_snoc.
  destruct (decide (key_of e = k)) as [Heq|Hne].
  - by rewrite Heq, !lookup_insert_eq.
  - rewrite !lookup_insert_ne by done. apply IH.
    apply elem_of_app in Hin as [Hin|Hin]; [by eauto|].
    apply list_elem_of_singleton in Hin as ->. done.
Qed.

Lemma populate_populate now1 now2 l data :
  populate config now2 l (populate config now1 l data)
    = populate config now2 l data.
Proof.
  apply map_eq. intros k.
  destruct (decide (Exists (fun e => key_of e = k) l)) as [Hex|Hno].
  - apply populate_lookup_ext. by apply Exists_exists in Hex.
  - assert (forall e, e ∈ l -> key_of e <> k) as Hk.
    { intros e Hin Heq. apply Hno, Exists_exists. eauto. }
    by rewrite !populate_lookup_other.
Qed.

(** X7. A reload supersedes the load before it: after [fetchEmotes] has
    run twice against the same upstream, [allEmotes] and the cache are
    what the second run alone would have left. *)
Theorem fetchEmotes_reload_supersedes
    (axios_get : string -> AxiosResult json) (order1 order2 : list nat)
    (now1 now2 : Z) (s s1 s2 s' : Registry) (r1 r2 r : list Emote.t) :
  fetchEmotes config axios_get order1 now1 s = Some (r1, s1) ->
  fetchEmotes config axios_get order2 now2 s1 = Some (r2, s2) ->
  fetchEmotes config axios_get order2 now2 s = Some (r, s') ->
  r2 = r /\ r2 = r1 /\
  allEmotes s2 = allEmotes s' /\ emoteCache s2 = emoteCache s'.
Proof.
  intros H1 H2 H'.
  apply fetchEmotes_Some in H1 as [(Hids & -> & ->)|(Hne & -> & ->)];
    apply fetchEmotes_Some in H2 as [(Hids2 & -> & ->)|(Hne2 & -> & ->)];
    apply fetchEmotes_Some in H' as [(Hids' & -> & ->)|(Hne' & -> & ->)];
    try done.
  cbn. by rewrite populate_populate.
Qed.

(** With no set configured the cache stays empty. *)
Lemma emoteCache_empty_config s :
  emoteSetIds config = [] -> reachable config s -> emoteCache s = ∅.
Proof.
  intros Hids Hreach.
  induction Hreach
    as [|axios_get order now s r s' Hr IH Hf|now q s Hr IH|s _ IH|now s _ IH].
  - done.
  - apply fetchEmotes_Some in Hf as [(_ & _ & ->)|(Hne & _)]; done.
  - destruct (decide (q = "")) as [->|Hq]; [done|].
    rewrite findEmote_unfold by done. cbn.
    rewrite (allEmotes_empty_config config s Hids Hr), IH.
    unfold NodeCache.get. by rewrite lookup_empty.
  - done.
  - cbn. rewrite IH. apply map_filter_empty.
Qed.

(** X8. With no set configured the module never holds anything:
    [allEmotes] and the cache are empty in every state it can be in, and
    every lookup returns [null]. *)
Theorem nothing_without_sets (s : Registry) (now : Z) (q : string) :
  emoteSetIds config = [] ->
  reachable config s ->
  allEmotes s = [] /\ emoteCache s = ∅ /\
  (findEmote config now q s).1 = None.
Proof.
  intros Hids Hreach.
  pose proof (allEmotes_empty_config config s Hids Hreach) as Hall.
  pose proof (emoteCache_empty_config s Hids Hreach) as Hcache.
  split; [done|]. split; [done|].
  destruct (decide (q = "")) as [->|Hq]; [done|].
  rewrite findEmote_unfold by done. cbn. rewrite Hall, Hcache.
  unfold NodeCache.get. by rewrite lookup_empty.
Qed.

End ServiceExtras.

(* ================================================================== *)
(** * The configured set identifiers *)
(* ================================================================== *)

Lemma split_cons sep c s :
  split sep (String c s) =
    if Ascii.eqb c sep then EmptyString :: split sep s
    else match split sep s with
         | h :: t => String c h :: t
         | [] => [String c EmptyString]
         end.
Proof. reflexivity. Qed.

Lemma split_not_nil sep s : split sep s <> [].
Proof.
  destruct s as [|c s]; cbn; [done|].
  destruct (Ascii.eqb c sep); [done|]. by destruct (split sep s).
Qed.

(** No piece of a split string holds the separator. *)
Lemma split_no_sep sep s x :
  x ∈ split sep s -> contains_char sep x = false.
Proof.
  revert x. induction s as [|c s IH]; intros x Hin; cbn in Hin.
  - apply list_elem_of_singleton in Hin as ->. done.
  - destruct (Ascii.eqb c sep) eqn:Hc.
    + apply elem_of_cons in Hin as [->|Hin]; [done|by apply IH].
    + destruct (split sep s) as [|h t] eqn:Hs.
      * apply list_elem_of_singleton in Hin as ->. cbn. by rewrite Hc.
      * apply elem_of_cons in Hin as [->|Hin].
        { cbn. rewrite Hc. apply IH, list_elem_of_here. }
        apply IH. by apply list_elem_of_further.
Qed.

Lemma split_without_sep sep x :
  contains_char sep x = false -> split sep x = [x].
Proof.
  induction x as [|c x IH]; cbn; [done|].
  intros Hc. apply orb_false_iff in Hc as [Hc Hx].
  by rewrite Hc, IH.
Qed.

Lemma split_app_sep sep x s :
  contains_char sep x = false ->
  split sep (x +:+ String sep s) = x :: split sep s.
Proof.
  induction x as [|c x IH].
  - intros _. change (EmptyString +:+ String sep s) with (String sep s).
    rewrite split_cons. by rewrite Ascii.eqb_refl.
  - intros Hc. cbn in Hc. apply orb_false_iff in Hc as [Hc Hx].
    change (String c x +:+ String sep s) with (String c (x +:+ String sep s)).
    by rewrite split_cons, Hc, IH.
Qed.

(** [split] undoes [join] on pieces without the separator. *)
Lemma split_join sep segs :
  segs <> [] ->
  (forall seg, seg ∈ segs -> contains_char sep seg = false) ->
  split sep (join (String sep EmptyString) segs) = segs.
Proof.
  induction segs as [|x segs IH]; [done|]. intros _ Hsegs.
  destruct segs as [|y segs].
  - cbn. apply split_without_sep, Hsegs, list_elem_of_here.
  - change (join (String sep EmptyString) (x :: y :: segs))
      with (x +:+ String sep (join (String sep EmptyString) (y :: segs))).
    rewrite split_app_sep by apply Hsegs, list_elem_of_here.
    rewrite IH; [done|done|].
    intros seg Hin. by apply Hsegs, list_elem_of_further.
Qed.

Lemma split_blank sep s x :
  blank_but sep s = true -> x ∈ split sep s -> blank_but sep x = true.
Proof.
  revert x. induction s as [|c s IH]; intros x Hb Hin; cbn in *.
  - apply list_elem_of_singleton in Hin as ->. done.
  - apply andb_true_iff in Hb as [Hc Hb].
    destruct (Ascii.eqb c sep) eqn:Hsep.
    + apply elem_of_cons in Hin as [->|Hin]; [done|by apply IH].
    + destruct (split sep s) as [|h t] eqn:Hs.
      * apply list_elem_of_singleton in Hin as ->. cbn.
        rewrite Hsep. cbn in Hc |- *. by rewrite Hc.
      * apply elem_of_cons in Hin as [->|Hin].
        { cbn. rewrite Hsep. cbn in Hc |- *. rewrite Hc.
          apply IH; [done|apply list_elem_of_here]. }
        apply IH; [done|by apply list_elem_of_further].
Qed.

(** ** White space, on ASCII text *)

Lemma trim_start_blank sep x :
  blank_but sep x = true -> contains_char sep x = false ->
  AsciiString.trim_start x = "".
Proof.
  induction x as [|c x IH]; cbn; [done|].
  intros Hb Hc. apply andb_true_iff in Hb as [Hb Hx].
  apply orb_false_iff in Hc as [Hc Hcx]. rewrite Hc in Hb. cbn in Hb.
  rewrite Hb. by apply IH.
Qed.

Lemma trim_start_contains c s :
  contains_char c s = false ->
  contains_char c (AsciiString.trim_start s) = false.
Proof.
  induction s as [|c' s IH]; cbn; [done|].
  intros Hc. destruct (AsciiString.is_space c'); [|done].
  apply orb_false_iff in Hc as [_ Hc]. by apply IH.
Qed.

Lemma trim_end_contains c s :
  contains_char c s = false ->
  contains_char c (AsciiString.trim_end s) = false.
Proof.
  induction s as [|c' s IH]; cbn; [done|].
  intros Hc. apply orb_false_iff in Hc as [Hc' Hc].
  specialize (IH Hc).
  destruct (AsciiString.trim_end s) as [|c'' rest].
  - destruct (AsciiString.is_space c'); cbn; [done|by rewrite Hc'].
  - cbn in *. by rewrite Hc', IH.
Qed.

Lemma trim_end_idem s :
  AsciiString.trim_end (AsciiString.trim_end s) = AsciiString.trim_end s.
Proof.
  induction s as [|c s IH]; cbn; [done|].
  destruct (AsciiString.trim_end s) as [|c' rest] eqn:Hs.
  - destruct (AsciiString.is_space c) eqn:Hc; cbn; [done|by rewrite Hc].
  - change (AsciiString.trim_end (String c (String c' rest)))
      with (match AsciiString.trim_end (String c' rest) with
            | EmptyString =>
                if AsciiString.is_space c then EmptyString
                else String c EmptyString
            | rest' => String c rest'
            end).
    by rewrite IH.
Qed.

(** A string that does not begin with white space keeps its first
    character when white space is taken from its end. *)
Lemma trim_start_trim_end s :
  AsciiString.trim_start s = s ->
  AsciiString.trim_start (AsciiString.trim_end s) = AsciiString.trim_end s.
Proof.
  destruct s as [|c s]; [done|]. cbn.
  destruct (AsciiString.is_space c) eqn:Hc.
  - intros Hs. exfalso.
    assert (forall t, String.length (AsciiString.trim_start t)
                      <= String.length t)%nat as Hlen.
    { clear. induction t as [|c t IH]; cbn; [done|].
      destruct (AsciiString.is_space c); cbn; lia. }
    specialize (Hlen s). rewrite Hs in Hlen. cbn in Hlen. lia.
  - intros _. destruct (AsciiString.trim_end s); cbn; by rewrite Hc.
Qed.

Lemma trim_start_idem s :
  AsciiString.trim_start (AsciiString.trim_start s) = AsciiString.trim_start s.
Proof.
  induction s as [|c s IH]; cbn; [done|].
  destruct (AsciiString.is_space c) eqn:Hc; [done|]. cbn. by rewrite Hc.
Qed.

Lemma ascii_trim_idem s :
  @trim ascii_string (@trim ascii_string s) = @trim ascii_string s.
Proof.
  cbn. rewrite trim_start_trim_end by apply trim_start_idem.
  apply trim_end_idem.
Qed.

Section ConfigFacts.
#[local] Existing Instance ascii_string.

(** X9. On ASCII text, every identifier [getEmoteSetIds] returns is
    non-empty, holds no comma and has no white space at either end. *)
Theorem getEmoteSetIds_well_formed (env : Env) (id : string) :
  id ∈ getEmoteSetIds env ->
  (0 < String.length id)%nat /\
  contains_char "," id = false /\
  trim id = id.
Proof.
  unfold getEmoteSetIds. intros Hin.
  apply list_elem_of_In, filter_In in Hin as [Hin Hlen].
  apply list_elem_of_In, list_elem_of_fmap in Hin as (x & -> & Hx).
  split; [by apply Nat.ltb_lt|]. split.
  - cbn. apply trim_end_contains, trim_start_contains.
    by eapply split_no_sep.
  - apply ascii_trim_idem.
Qed.

(** X11. When [EMOTE_SET_IDS] is not set, or set to commas and white
    space only, no set is configured, and [fetchEmotes] under such a
    configuration returns the empty list at once: it waits for nothing,
    asks the upstream nothing and leaves the state as it is. *)
Theorem blank_EMOTE_SET_IDS
    (process_env : string -> option string) (env : Env) :
  EnvSchema process_env = Some env ->
  blank_but "," (default "" (process_env "EMOTE_SET_IDS")) = true ->
  getEmoteSetIds env = [] /\
  forall config axios_get order now s,
    emoteSetIds config = getEmoteSetIds env ->
    fetchEmotes config axios_get order now s = Some ([], s).
Proof.
  intros Henv Hblank.
  assert (EMOTE_SET_IDS env = default "" (process_env "EMOTE_SET_IDS"))
    as Hids.
  { unfold EnvSchema in Henv.
    destruct (process_env "NODE_ENV") as [v|]; cbn in Henv.
    - destruct (_ || _); cbn in Henv; [|discriminate]. by injection Henv as <-.
    - by injection Henv as <-. }
  assert (getEmoteSetIds env = []) as Hnil.
  { unfold getEmoteSetIds. rewrite Hids.
    destruct (List.filter _ _) as [|id ids] eqn:Hf; [done|].
    assert (In id (List.filter
                     (fun id => (0 <? String.length id)%nat)
                     (trim <$> split "," (default "" (process_env "EMOTE_SET_IDS")))))
      as Hin by (rewrite Hf; by left).
    apply filter_In in Hin as [Hin Hlen].
    apply list_elem_of_In, list_elem_of_fmap in Hin as (x & -> & Hx).
    cbn in Hlen. rewrite (trim_start_blank ","%char x) in Hlen.
    - done.
    - by eapply split_blank.
    - by eapply split_no_sep. }
  split; [done|].
  intros config axios_get order now s Hcfg. unfold fetchEmotes.
  by rewrite Hcfg, Hnil.
Qed.

End ConfigFacts.

Section ConfigRoundTrip.
Context `{JSString}.

Lemma filter_trimmed (segs : list string) :
  (forall seg, seg ∈ segs -> (0 < String.length seg)%nat /\ trim seg = seg) ->
  List.filter (fun id => (0 <? String.length id)%nat) (trim <$> segs) = segs.
Proof.
  induction segs as [|x segs IH]; [done|]. intros Hsegs.
  destruct (Hsegs x) as [Hlen Htrim]; [apply list_elem_of_here|].
  rewrite fmap_cons, Htrim.
  destruct x as [|c x]; [cbn in Hlen; lia|]. cbn.
  f_equal. apply IH. intros seg Hin. by apply Hsegs, list_elem_of_further.
Qed.

(** X10. [getEmoteSetIds] reads back a list written with commas: for
    pieces without comma, it returns the trimmed pieces that are not
    empty, in order; so a list of identifiers that are non-empty, without
    comma and without white space around them is returned as it is. *)
Theorem getEmoteSetIds_join (env : Env) (segs : list string) :
  EMOTE_SET_IDS env = join "," segs ->
  segs <> [] ->
  (forall seg, seg ∈ segs -> contains_char "," seg = false) ->
  getEmoteSetIds env =
    List.filter (fun id => (0 <? String.length id)%nat) (trim <$> segs) /\
  ((forall seg, seg ∈ segs -> (0 < String.length seg)%nat /\ trim seg = seg) ->
   getEmoteSetIds env = segs).
Proof.
  intros Henv Hne Hsegs.
  assert (getEmoteSetIds env =
            List.filter (fun id => (0 <? String.length id)%nat) (trim <$> segs))
    as Heq.
  { unfold getEmoteSetIds. rewrite Henv.
    by rewrite (split_join ","%char segs Hne Hsegs). }
  split; [done|]. intros Hclean. rewrite Heq. by apply filter_trimmed.
Qed.

End ConfigRoundTrip.

(* ================================================================== *)
(** * The middlewares *)
(* ================================================================== *)

Lemma res_getHeader_setHeader name value res :
  res_getHeader name (res_setHeader name value res) = Some value.
Proof. unfold res_getHeader, res_setHeader. cbn. apply lookup_insert_eq. Qed.

Lemma res_getHeader_setHeader_ne name name' value res :
  AsciiString.map_chars AsciiString.lower_char name
    <> AsciiString.map_chars AsciiString.lower_char name' ->
  res_getHeader name' (res_setHeader name value res) = res_getHeader name' res.
Proof.
  intros Hne. unfold res_getHeader, res_setHeader. cbn.
  by apply lookup_insert_ne.
Qed.

(** X12. Both cache middlewares hand over with [next()] and write only
    the headers [Cache-Control] and [Vary]. When [imageCacheControl] runs
    on a response after [cacheControl(maxAge)], the order in which
    src/index.ts mounts them, the response ends up with
    [Cache-Control: max-age=604800] whatever [maxAge] was, and with
    [Vary: Accept]. *)
Theorem cacheControl_then_imageCacheControl
    (maxAge : option Z) (res : ServerResponse) :
  let first := cacheControl maxAge res in
  let second := imageCacheControl first.1 in
  first.2 = CallNext /\ second.2 = CallNext /\
  res_getHeader "Cache-Control" first.1
    = Some ("max-age=" +:+ number_to_string (default 3600 maxAge)) /\
  res_getHeader "Cache-Control" second.1 = Some "max-age=604800" /\
  res_getHeader "Vary" first.1 = Some "Accept" /\
  res_getHeader "Vary" second.1 = Some "Accept" /\
  statusCode second.1 = statusCode res /\
  body second.1 = body res /\
  (forall name,
     AsciiString.map_chars AsciiString.lower_char name <> "cache-control" ->
     AsciiString.map_chars AsciiString.lower_char name <> "vary" ->
     res_getHeader name first.1 = res_getHeader name res /\
     res_getHeader name second.1 = res_getHeader name res).
Proof.
  cbv zeta. unfold cacheControl, imageCacheControl. cbn [fst snd].
  split; [done|]. split; [done|].
  split.
  { rewrite res_getHeader_setHeader_ne by discriminate.
    apply res_getHeader_setHeader. }
  split.
  { rewrite res_getHeader_setHeader_ne by discriminate.
    apply res_getHeader_setHeader. }
  split; [apply res_getHeader_setHeader|].
  split; [apply res_getHeader_setHeader|].
  split; [done|]. split; [done|].
  - intros name Hcc Hvary.
    assert (AsciiString.map_chars AsciiString.lower_char "Vary"
            <> AsciiString.map_chars AsciiString.lower_char name) as Hv
      by (intros Heq; apply Hvary; symmetry; exact Heq).
    assert (AsciiString.map_chars AsciiString.lower_char "Cache-Control"
            <> AsciiString.map_chars AsciiString.lower_char name) as Hc
      by (intros Heq; apply Hcc; symmetry; exact Heq).
    by rewrite !res_getHeader_setHeader_ne.
Qed.

Lemma number_or_truthy a b n :
  a = Some n -> n <> 0 -> number_or a b = Some n.
Proof. intros -> Hn. unfold number_or. by destruct (Z.eqb_spec n 0). Qed.

Lemma number_or_falsy a b :
  a = None \/ a = Some 0 -> number_or a b = b.
Proof. by intros [->| ->]. Qed.

(** X13. [errorHandler] answers with the first of [err.status],
    [err.statusCode] that is a non-zero number, and with 500 when there
    is none; the status it writes is never 0. In production the body is
    the error message alone; otherwise the stack trace, if the error has
    one, goes with it. The headers are left alone. *)
Theorem errorHandler_response
    (isProduction : bool) (err : HttpError.t) (res : ServerResponse) :
  let r := errorHandler isProduction err res in
  statusCode r <> 0 /\
  (forall n, HttpError.status err = Some n -> n <> 0 -> statusCode r = n) /\
  (forall n, HttpError.status err = None \/ HttpError.status err = Some 0 ->
     HttpError.statusCode err = Some n -> n <> 0 -> statusCode r = n) /\
  (HttpError.status err = None \/ HttpError.status err = Some 0 ->
   HttpError.statusCode err = None \/ HttpError.statusCode err = Some 0 ->
   statusCode r = 500) /\
  headers r = headers res /\
  (isProduction = true ->
   body r = Some (BodyJson (JObj [("error", JStr (HttpError.message err))]))) /\
  (isProduction = false ->
   body r = Some (BodyJson (JObj (("error", JStr (HttpError.message err))
              :: match HttpError.stack err with
                 | Some st => [("stack", JStr st)]
                 | None => []
                 end)))).
Proof.
  cbv zeta. destruct err as [msg st a b]. unfold errorHandler.
  cbn [HttpError.status HttpError.statusCode HttpError.message
       HttpError.stack statusCode headers body res_json res_status].
  assert (forall n, a = Some n -> n <> 0 ->
            default 500 (number_or (number_or a b) (Some 500)) = n) as Ha.
  { intros n Han Hn. rewrite (number_or_truthy a b n) by done.
    by rewrite (number_or_truthy (Some n) _ n). }
  assert (forall n, a = None \/ a = Some 0 -> b = Some n -> n <> 0 ->
            default 500 (number_or (number_or a b) (Some 500)) = n) as Hb.
  { intros n Han Hbn Hn. rewrite (number_or_falsy a b) by done.
    by rewrite (number_or_truthy b _ n). }
  assert (a = None \/ a = Some 0 -> b = None \/ b = Some 0 ->
            default 500 (number_or (number_or a b) (Some 500)) = 500) as Hd.
  { intros Han Hbn. rewrite (number_or_falsy a b) by done.
    by rewrite (number_or_falsy b). }
  split; [|split; [done|split; [done|split; [done|split; [done|split]]]]].
  - destruct a as [a|]; [destruct (decide (a = 0)) as [->|Hna]|].
    + destruct b as [b|]; [destruct (decide (b = 0)) as [->|Hnb]|].
      * rewrite Hd; [done|by right..].
      * rewrite (Hb b); [done|by right|done|done].
      * rewrite Hd; [done|by right|by left].
    + by rewrite (Ha a).
    + destruct b as [b|]; [destruct (decide (b = 0)) as [->|Hnb]|].
      * rewrite Hd; [done|by left|by right].
      * rewrite (Hb b); [done|by left|done|done].
      * rewrite Hd; [done|by left..].
  - by intros ->.
  - intros ->. by destruct st.
Qed.

(* ================================================================== *)
(** * The routes *)
(* ================================================================== *)

(** X17. At run time [getEmoteUrl] and [fetchEmoteImage] agree with
    their typed reading on the sizes and formats the types allow. For any
    other value, which the routes do not exclude, the size and the format
    go into the CDN URL as they are, and every format other than [webp]
    and [avif] gets the content type [image/gif]. *)
Theorem Runtime_agrees_and_falls_through
    (axios_get : string -> AxiosResult (list Byte.byte)) (emoteId : string) :
  (forall size format,
     Runtime.getEmoteUrl emoteId (Size_to_string <$> size)
                         (Format_to_string <$> format)
       = getEmoteUrl emoteId size format /\
     Runtime.fetchEmoteImage axios_get emoteId (Size_to_string <$> size)
                             (Format_to_string <$> format)
       = fetchEmoteImage axios_get emoteId size format) /\
  (forall size format data,
     axios_get (cdnBaseUrl +:+ "/" +:+ emoteId +:+ "/" +:+ size +:+ "."
                  +:+ format) = AxiosOk data ->
     Runtime.fetchEmoteImage axios_get emoteId (Some size) (Some format)
       = Return {| buffer := data;
                   contentType :=
                     if String.eqb format "webp" then "image/webp"
                     else if String.eqb format "avif" then "image/avif"
                     else "image/gif" |}) /\
  (forall size format data,
     format <> "webp" -> format <> "avif" ->
     axios_get (cdnBaseUrl +:+ "/" +:+ emoteId +:+ "/" +:+ size +:+ "."
                  +:+ format) = AxiosOk data ->
     Runtime.fetchEmoteImage axios_get emoteId (Some size) (Some format)
       = Return {| buffer := data; contentType := "image/gif" |}).
Proof.
  assert (forall size format data,
     axios_get (cdnBaseUrl +:+ "/" +:+ emoteId +:+ "/" +:+ size +:+ "."
                  +:+ format) = AxiosOk data ->
     Runtime.fetchEmoteImage axios_get emoteId (Some size) (Some format)
       = Return {| buffer := data;
                   contentType :=
                     if String.eqb format "webp" then "image/webp"
                     else if String.eqb format "avif" then "image/avif"
                     else "image/gif" |}) as Hrun.
  { intros size format data Hget.
    cbv beta iota zeta
      delta [Runtime.fetchEmoteImage Runtime.getEmoteUrl default from_option id].
    by rewrite Hget. }
  split; [|split; [done|]].
  - intros size format. split.
    + by destruct size as [[]|], format as [[]|].
    + unfold Runtime.fetchEmoteImage, fetchEmoteImage.
      replace (Runtime.getEmoteUrl emoteId
                 (Some (default "3x" (Size_to_string <$> size)))
                 (Some (default "webp" (Format_to_string <$> format))))
        with (getEmoteUrl emoteId (Some (default size_3x size))
                          (Some (default webp format)))
        by by destruct size as [[]|], format as [[]|].
      destruct (axios_get _); [|done].
      by destruct format as [[]|].
  - intros size format data Hw Ha Hget. rewrite (Hrun _ _ _ Hget).
    apply String.eqb_neq in Hw, Ha. by rewrite Hw, Ha.
Qed.

Section RouteFacts.
Context `{JSString} (config : Config).

(** X14. [GET /api/emotes] reloads: once every request has settled it
    answers with the Emotes just loaded, in order, [count] being their
    number, and they are the new [allEmotes]. Of each Emote the answer
    gives the name, the id, the owner, the animation flag and the URL of
    the [3x] [webp] image; the tags, the MIME type and the visibility are
    not in it. *)
Theorem get_api_emotes_lists_loaded
    (axios_get : string -> AxiosResult json) (order : list nat) (now : Z)
    (res : ServerResponse) (s : Registry) :
  reachable config s \/ emoteSetIds config <> [] ->
  Permutation order (seq 0 (length (emoteSetIds config))) ->
  (exists s',
     get_api_emotes config axios_get order now res s =
       Some (res_json
               (JObj [("count",
                       JNum (Z.of_nat (length (loaded config axios_get))));
                      ("emotes",
                       JArr (emote_list_item <$> loaded config axios_get))])
               res, Done, s') /\
     allEmotes s' = loaded config axios_get) /\
  (forall e,
     json_field "url" (emote_list_item e)
       = Some (JStr (cdnBaseUrl +:+ "/" +:+ Emote.id e +:+ "/3x.webp")) /\
     json_field "id" (emote_list_item e) = Some (JStr (Emote.id e)) /\
     json_field "name" (emote_list_item e) = Some (JStr (Emote.name e)) /\
     json_field "tags" (emote_list_item e) = None /\
     json_field "mime" (emote_list_item e) = None /\
     json_field "visibility" (emote_list_item e) = None).
Proof.
  intros Hs Hperm. split; [|done].
  destruct (fetchEmotes_loaded config axios_get order now s Hs Hperm)
    as (s' & Hf & Hall).
  exists s'. unfold get_api_emotes. by rewrite Hf.
Qed.

(** X15. [GET /api/emote/:emoteName] answers 400 when the name is
    missing or empty, without touching the module state; 404 when
    [findEmote] finds nothing; and otherwise the Emote [findEmote]
    returns, whose name is the requested one up to case and the white
    space around it, with the four [webp] URLs of its id. It never
    changes [allEmotes] and always completes the response. *)
Theorem get_api_emote_outcome
    (now : Z) (emoteName : option string) (res : ServerResponse)
    (s : Registry) :
  reachable config s ->
  let name := string_or emoteName "" in
  let r := get_api_emote config now emoteName res s in
  r.1.2 = Done /\
  allEmotes r.2 = allEmotes s /\
  (name = "" ->
   r = (res_json (error_body "Nome do emote não fornecido")
                 (res_status 400 res), Done, s)) /\
  (name <> "" ->
   r.2 = (findEmote config now name s).2 /\
   ((findEmote config now name s).1 = None ->
    r.1.1 = res_json (error_body "Emote não encontrado")
                     (res_status 404 res))) /\
  (forall e, (findEmote config now name s).1 = Some e ->
     r.1.1 = res_json (emote_response e) res /\
     toLowerCase (Emote.name e) = toLowerCase (trim name) /\
     json_field "urls" (emote_response e) =
       Some (JObj [
         ("1x", JStr (cdnBaseUrl +:+ "/" +:+ Emote.id e +:+ "/1x.webp"));
         ("2x", JStr (cdnBaseUrl +:+ "/" +:+ Emote.id e +:+ "/2x.webp"));
         ("3x", JStr (cdnBaseUrl +:+ "/" +:+ Emote.id e +:+ "/3x.webp"));
         ("4x", JStr (cdnBaseUrl +:+ "/" +:+ Emote.id e +:+ "/4x.webp"))])).
Proof.
  intros Hreach name r. unfold r, get_api_emote. fold name.
  destruct (String.eqb_spec name "") as [Hname|Hname].
  - split; [done|]. split; [done|]. split; [done|]. split; [done|].
    intros e He. by rewrite Hname in He.
  - unfold mbind, M_bind.
    pose proof (findEmote_allEmotes config now name s) as Hall.
    pose proof (findEmote_Some_key config now name s) as Hkey.
    destruct (findEmote config now name s) as [[e|] s1]; cbn in *.
    + split; [done|]. split; [done|]. split; [done|]. split; [done|].
      intros e' [= <-]. split; [done|]. split; [|done].
      by destruct (Hkey e Hreach eq_refl).
    + split; [done|]. split; [done|]. split; [done|]. split; [done|].
      intros e' [=].
Qed.

End RouteFacts.

Section ImageRoutes.
Context `{JSString} (config : Config).

(** [handleEmoteRequest] once the Emote is found: the CDN is asked for
    the image of its id, and the answer, or the failure, is passed on. *)
Lemma handleEmoteRequest_found now axios_get query_size res emoteName format
    s e :
  (findEmote config now emoteName s).1 = Some e ->
  handleEmoteRequest config now axios_get query_size res emoteName format s =
    (match Runtime.fetchEmoteImage axios_get (Emote.id e)
             (Some (string_or query_size "3x"))
             (Some (default "webp" format)) with
     | Throw error => (res, CallNextError error)
     | Return image =>
         (res_send (buffer image)
            (res_setHeader "Content-Length"
               (number_to_string (Z.of_nat (length (buffer image))))
               (res_setHeader "Content-Type" (contentType image) res)),
          Done)
     end,
     (findEmote config now emoteName s).2).
Proof.
  intros Hfind. unfold handleEmoteRequest.
  destruct (String.eqb_spec emoteName "") as [->|Hname]; [discriminate|].
  unfold mbind, M_bind.
  destruct (findEmote config now emoteName s) as [[x|] s1]; [|discriminate].
  cbn in Hfind. injection Hfind as ->. cbn.
  by destruct (Runtime.fetchEmoteImage _ _ _ _).
Qed.

(** X16. [handleEmoteRequest] answers 400 for an empty name, leaving the
    module state alone, and 404 when [findEmote] finds nothing; in both
    cases whatever the CDN would say. For an Emote that is found it asks
    the CDN for [{cdnBaseUrl}/{id}/{size}.{format}], the size being
    [req.query.size] or [3x] when that is missing or empty. A failed
    request is handed to [next(error)] with nothing written to the
    response; a successful one is sent as the body, with its content type
    and with [Content-Length] the number of bytes sent. *)
Theorem handleEmoteRequest_outcome
    (now : Z) (axios_get : string -> AxiosResult (list Byte.byte))
    (query_size : option string) (res : ServerResponse)
    (emoteName : string) (format : option string) (s : Registry) :
  let r := handleEmoteRequest config now axios_get query_size res
             emoteName format s in
  let url e := cdnBaseUrl +:+ "/" +:+ Emote.id e +:+ "/"
                 +:+ string_or query_size "3x" +:+ "."
                 +:+ default "webp" format in
  (emoteName = "" ->
   r = (res_json (error_body "Nome do emote não fornecido")
                 (res_status 400 res), Done, s)) /\
  ((findEmote config now emoteName s).1 = None ->
   r.1 = (res_json (error_body (if String.eqb emoteName ""
                                then "Nome do emote não fornecido"
                                else "Emote não encontrado"))
                   (res_status (if String.eqb emoteName "" then 400 else 404)
                               res), Done)) /\
  (forall e, (findEmote config now emoteName s).1 = Some e ->
     axios_get (url e) = AxiosFail ->
     r.1 = (res, CallNextError AxiosError)) /\
  (forall e data, (findEmote config now emoteName s).1 = Some e ->
     axios_get (url e) = AxiosOk data ->
     r.1.2 = Done /\
     statusCode r.1.1 = statusCode res /\
     body r.1.1 = Some (BodyBuffer data) /\
     res_getHeader "Content-Length" r.1.1
       = Some (number_to_string (Z.of_nat (length data))) /\
     res_getHeader "Content-Type" r.1.1
       = Some (if String.eqb (default "webp" format) "webp" then "image/webp"
               else if String.eqb (default "webp" format) "avif"
                    then "image/avif"
                    else "image/gif")) /\
  r.2 = (findEmote config now emoteName s).2.
Proof.
  intros r url.
  assert (forall e,
    Runtime.fetchEmoteImage axios_get (Emote.id e)
      (Some (string_or query_size "3x")) (Some (default "webp" format))
    = match axios_get (url e) with
      | AxiosFail => Throw AxiosError
      | AxiosOk data =>
          Return {| buffer := data;
                    contentType :=
                      if String.eqb (default "webp" format) "webp"
                      then "image/webp"
                      else if String.eqb (default "webp" format) "avif"
                           then "image/avif"
                           else "image/gif" |}
      end) as Hfetch by done.
  split; [|split; [|split; [|split]]].
  - intros ->. done.
  - intros Hnone. unfold r, handleEmoteRequest.
    destruct (String.eqb_spec emoteName ""); [done|].
    unfold mbind, M_bind.
    destruct (findEmote config now emoteName s) as [[x|] s1]; [discriminate|].
    done.
  - intros e Hfind Hget. unfold r.
    rewrite (handleEmoteRequest_found _ _ _ _ _ _ _ e Hfind).
    by rewrite Hfetch, Hget.
  - intros e data Hfind Hget. unfold r.
    rewrite (handleEmoteRequest_found _ _ _ _ _ _ _ e Hfind).
    rewrite Hfetch, Hget. cbn [fst snd buffer contentType].
    split; [done|]. split; [done|]. split; [done|]. split.
    + apply res_getHeader_setHeader.
    + unfold res_send. cbn [statusCode headers body].
      unfold res_getHeader at 1. cbn [headers].
      change (res_getHeader "Content-Type"
                (res_setHeader "Content-Length"
                   (number_to_string (Z.of_nat (length data)))
                   (res_setHeader "Content-Type"
                      (if String.eqb (default "webp" format) "webp"
                       then "image/webp"
                       else if String.eqb (default "webp" format) "avif"
                            then "image/avif"
                            else "image/gif") res))
              = Some (if String.eqb (default "webp" format) "webp"
                      then "image/webp"
                      else if String.eqb (default "webp" format) "avif"
                           then "image/avif"
                           else "image/gif")).
      rewrite res_getHeader_setHeader_ne by discriminate.
      apply res_getHeader_setHeader.
  - unfold r, handleEmoteRequest.
    destruct (String.eqb_spec emoteName "") as [->|Hname]; [done|].
    unfold mbind, M_bind.
    destruct (findEmote config now emoteName s) as [[x|] s1]; [|done].
    cbn. by destruct (Runtime.fetchEmoteImage _ _ _ _).
Qed.

(** X18. The routes [/:emoteName.webp], [/:emoteName.avif] and
    [/:emoteName.gif] answer an Emote that is found, when the CDN has its
    image, with the bytes of [{cdnBaseUrl}/{id}/{size}.{ext}] and the
    content type [image/{ext}] of the extension in the path, whether the
    Emote is animated or not. *)
Theorem get_emoteName_ext_content_type
    (now : Z) (axios_get : string -> AxiosResult (list Byte.byte))
    (query_size emoteName : option string) (res : ServerResponse)
    (s : Registry) (e : Emote.t) :
  (findEmote config now (string_or emoteName "") s).1 = Some e ->
  let url ext := cdnBaseUrl +:+ "/" +:+ Emote.id e +:+ "/"
                   +:+ string_or query_size "3x" +:+ "." +:+ ext in
  let sent data ct :=
    (res_send data
       (res_setHeader "Content-Length"
          (number_to_string (Z.of_nat (length data)))
          (res_setHeader "Content-Type" ct res)), Done) in
  (forall data, axios_get (url "webp") = AxiosOk data ->
   (get_emoteName_webp config now axios_get query_size emoteName res s).1
     = sent data "image/webp") /\
  (forall data, axios_get (url "avif") = AxiosOk data ->
   (get_emoteName_avif config now axios_get query_size emoteName res s).1
     = sent data "image/avif") /\
  (forall data, axios_get (url "gif") = AxiosOk data ->
   (get_emoteName_gif config now axios_get query_size emoteName res s).1
     = sent data "image/gif").
Proof.
  intros Hfind url sent.
  assert (forall format data,
    axios_get (url format) = AxiosOk data ->
    Runtime.fetchEmoteImage axios_get (Emote.id e)
      (Some (string_or query_size "3x")) (Some format)
    = Return {| buffer := data;
                contentType :=
                  if String.eqb format "webp" then "image/webp"
                  else if String.eqb format "avif" then "image/avif"
                  else "image/gif" |}) as Hfetch.
  { intros format data Hf.
    cbv beta iota zeta
      delta [Runtime.fetchEmoteImage Runtime.getEmoteUrl default from_option id].
    fold (url format). by rewrite Hf. }
  split; [|split]; intros data Hget;
    unfold get_emoteName_webp, get_emoteName_avif, get_emoteName_gif;
    rewrite (handleEmoteRequest_found _ _ _ _ _ _ _ e Hfind);
    cbn [default from_option id]; by rewrite (Hfetch _ _ Hget).
Qed.

End ImageRoutes.

(* ================================================================== *)
(** * More runs on concrete inputs *)
(* ================================================================== *)

Section MoreRuns.
#[local] Existing Instance ascii_string.

(** A stale entry: [Kappa] is cached, the next load brings [PogChamp]
    only; the lookup of [ KAPPA ] still returns [Kappa]. *)
Lemma findEmote_returns_matching_name_witness :
  let config := set_A 3600 in
  let s := after_load [plain_emote "2" "PogChamp"]
             [("kappa", NodeCache.mk_entry (plain_emote "1" "Kappa") 3600000);
              ("pogchamp", NodeCache.mk_entry (plain_emote "2" "PogChamp") 3600010)]
             ["kappa"; "pogchamp"] in
  (findEmote config 20 " KAPPA " s).1 = Some (plain_emote "1" "Kappa") /\
  " KAPPA " <> "" /\
  toLowerCase (Emote.name (plain_emote "1" "Kappa")) = toLowerCase (trim " KAPPA ").
Proof.
  intros config s. split; [reflexivity|].
  apply (findEmote_returns_matching_name config 20 " KAPPA " s).
  - pose (s1 := after_load [plain_emote "1" "Kappa"]
                  [("kappa", NodeCache.mk_entry (plain_emote "1" "Kappa") 3600000)]
                  ["kappa"]).
    apply (reach_fetch config (serving [("A", [raw_emote "2" "PogChamp"])])
             [0]%nat 10 s1 [plain_emote "2" "PogChamp"] s).
    + apply (reach_fetch config (serving [("A", [raw_emote "1" "Kappa"])])
               [0]%nat 0 initial [plain_emote "1" "Kappa"] s1).
      * apply reach_initial.
      * reflexivity.
    + reflexivity.
  - reflexivity.
Defined.

(** The first lookup after a flush scans and caches; the second one only
    reads the cache. *)
Lemma findEmote_twice_witness :
  let config := set_A 3600 in
  let e := plain_emote "1" "Kappa" in
  let s := {| allEmotes := [e]; emoteCache := ∅; journal := [] |} in
  journal (findEmote config 5 "kappa" s).2
    = [CacheGet "kappa"; Scan; CacheSet "kappa"] /\
  findEmote config 5 "kappa" (findEmote config 5 "kappa" s).2 =
    (Some e,
     {| allEmotes := [e];
        emoteCache := {[ "kappa" := NodeCache.mk_entry e 3600005 ]};
        journal := [CacheGet "kappa"; Scan; CacheSet "kappa";
                    CacheGet "kappa"] |}).
Proof.
  intros config e s. split; [reflexivity|].
  exact (findEmote_twice config 5 "kappa" s e
           ltac:(vm_compute; discriminate) eq_refl).
Defined.

(** Two sets are configured and only the first request settles. *)
Lemma fetchEmotes_waits_for_all_witness :
  fetchEmotes (sets_A_B 3600)
    (serving [("A", [raw_emote "1" "a"]); ("B", [raw_emote "2" "b"])])
    [0]%nat 0 initial = None.
Proof.
  apply (fetchEmotes_waits_for_all (sets_A_B 3600) _ [0]%nat 0 initial 1).
  - cbn. lia.
  - intros Hin. apply list_elem_of_singleton in Hin. discriminate Hin.
Defined.

(** A refresh over a cache that held [old], with a lookup of [OLD]
    between the flush and the load: [old] is cached again, from the list
    that the load is about to replace, beside [x] and [y]. *)
Lemma refreshEmotes_cache_keys_witness :
  let config := set_A 3600 in
  let net := serving [("A", [raw_emote "1" "X"; raw_emote "2" "Y"])] in
  let s := after_load [plain_emote "0" "Old"]
             [("old", NodeCache.mk_entry (plain_emote "0" "Old") 3600000)]
             ["old"] in
  let r := [plain_emote "1" "X"; plain_emote "2" "Y"] in
  let ops := [CacheGet "old"; Scan; CacheSet "old"] in
  let s' :=
    {| allEmotes := r;
       emoteCache :=
         list_to_map
           [("old", NodeCache.mk_entry (plain_emote "0" "Old") 3600005);
            ("x", NodeCache.mk_entry (plain_emote "1" "X") 3600010);
            ("y", NodeCache.mk_entry (plain_emote "2" "Y") 3600010)];
       journal := [CacheSet "old"; CacheFlushAll; CacheGet "old"; Scan;
                   CacheSet "old"; CacheSet "x"; CacheSet "y"] |} in
  refreshEmotes config net [0]%nat 10 [StepFind 5 "OLD"] s = Some (r, s') /\
  (forall k, (exists e, e ∈ r /\ toLowerCase (Emote.name e) = k) ->
             is_Some (emoteCache s' !! k)) /\
  (forall k, is_Some (emoteCache s' !! k) ->
             (exists e, e ∈ r /\ toLowerCase (Emote.name e) = k) \/
             CacheSet k ∈ ops).
Proof.
  intros config net s r ops s'.
  assert (refreshEmotes config net [0]%nat 10 [StepFind 5 "OLD"] s
          = Some (r, s')) as Hr by reflexivity.
  split; [exact Hr|].
  assert (journal (run config [StepFind 5 "OLD"] (emoteCache_flushAll s).2)
          = (journal (emoteCache_flushAll s).2 ++ ops)%list) as Hj
    by reflexivity.
  destruct (refreshEmotes_cache_keys config net [0]%nat 10 [StepFind 5 "OLD"]
              ops s s' r Hj Hr) as (Hloaded & Hkeys & _).
  split; [exact Hloaded|exact Hkeys].
Defined.

(** Two loads of the same set, ten milliseconds apart. *)
Lemma fetchEmotes_reload_supersedes_witness :
  let config := set_A 3600 in
  let net := serving [("A", [raw_emote "1" "X"; raw_emote "2" "x"])] in
  let r := [plain_emote "1" "X"; plain_emote "2" "x"] in
  let s1 := after_load r
              [("x", NodeCache.mk_entry (plain_emote "2" "x") 3600000)]
              ["x"; "x"] in
  let s2 := after_load r
              [("x", NodeCache.mk_entry (plain_emote "2" "x") 3600010)]
              ["x"; "x"; "x"; "x"] in
  let s' := after_load r
              [("x", NodeCache.mk_entry (plain_emote "2" "x") 3600010)]
              ["x"; "x"] in
  fetchEmotes config net [0]%nat 0 initial = Some (r, s1) /\
  fetchEmotes config net [0]%nat 10 s1 = Some (r, s2) /\
  fetchEmotes config net [0]%nat 10 initial = Some (r, s') /\
  allEmotes s2 = allEmotes s' /\ emoteCache s2 = emoteCache s'.
Proof.
  intros config net r s1 s2 s'.
  assert (fetchEmotes config net [0]%nat 0 initial = Some (r, s1)) as H1
    by reflexivity.
  assert (fetchEmotes config net [0]%nat 10 s1 = Some (r, s2)) as H2
    by reflexivity.
  assert (fetchEmotes config net [0]%nat 10 initial = Some (r, s')) as H3
    by reflexivity.
  split; [exact H1|]. split; [exact H2|]. split; [exact H3|].
  destruct (fetchEmotes_reload_supersedes config net [0]%nat [0]%nat 0 10
              initial s1 s2 s' r r r H1 H2 H3)
    as (_ & _ & Hall & Hcache).
  split; [exact Hall|exact Hcache].
Defined.

(** No set configured: after any lookup the module is as empty as
    before. *)
Lemma nothing_without_sets_witness :
  let config := {| emoteSetIds := []; cacheTTL := 3600 |} in
  let s := (findEmote config 0 "x" initial).2 in
  allEmotes s = [] /\ emoteCache s = ∅ /\
  (findEmote config 1 "y" s).1 = None.
Proof.
  intros config s.
  apply (nothing_without_sets config s 1 "y").
  - reflexivity.
  - apply (reach_find config 0 "x" initial), reach_initial.
Defined.

(** A list with white space, an empty piece and a trailing comma. *)
Lemma getEmoteSetIds_well_formed_witness :
  let env := {| EMOTE_SET_IDS := " A , ,B,"; PORT := "3000";
                CACHE_TTL := "3600"; NODE_ENV := "test" |} in
  getEmoteSetIds env = ["A"; "B"] /\
  (0 < String.length "B")%nat /\
  contains_char "," "B" = false /\
  trim "B" = "B".
Proof.
  intros env. split; [reflexivity|].
  apply (getEmoteSetIds_well_formed env "B").
  apply list_elem_of_further, list_elem_of_here.
Defined.

Lemma getEmoteSetIds_join_witness :
  let env := {| EMOTE_SET_IDS := "A,B b,C"; PORT := "3000";
                CACHE_TTL := "3600"; NODE_ENV := "test" |} in
  getEmoteSetIds env = ["A"; "B b"; "C"].
Proof.
  intros env.
  apply (getEmoteSetIds_join env ["A"; "B b"; "C"]).
  - reflexivity.
  - discriminate.
  - intros seg Hin.
    repeat (apply elem_of_cons in Hin as [->|Hin]; [reflexivity|]).
    by apply not_elem_of_nil in Hin.
  - intros seg Hin.
    repeat (apply elem_of_cons in Hin as [->|Hin];
            [split; [cbn; lia|reflexivity]|]).
    by apply not_elem_of_nil in Hin.
Defined.

(** An environment without any of the variables. *)
Lemma blank_EMOTE_SET_IDS_witness :
  let env := {| EMOTE_SET_IDS := ""; PORT := "3000";
                CACHE_TTL := "3600"; NODE_ENV := "development" |} in
  EnvSchema (fun _ => None) = Some env /\
  getEmoteSetIds env = [] /\
  forall config axios_get order now s,
    emoteSetIds config = getEmoteSetIds env ->
    fetchEmotes config axios_get order now s = Some ([], s).
Proof.
  intros env. split; [reflexivity|].
  exact (blank_EMOTE_SET_IDS (fun _ => None) env eq_refl eq_refl).
Defined.

(** The listing of two sets of one Emote each. *)
Lemma get_api_emotes_lists_loaded_witness :
  let config := sets_A_B 3600 in
  let net := serving [("A", [raw_emote "1" "a"]); ("B", [raw_emote "2" "b"])] in
  loaded config net = [plain_emote "1" "a"; plain_emote "2" "b"] /\
  exists s',
    get_api_emotes config net [1; 0]%nat 0 new_response initial =
      Some (res_json
              (JObj [("count", JNum (Z.of_nat (length (loaded config net))));
                     ("emotes", JArr (emote_list_item <$> loaded config net))])
              new_response, Done, s') /\
    allEmotes s' = loaded config net.
Proof.
  intros config net. split; [reflexivity|].
  apply (get_api_emotes_lists_loaded config net [1; 0]%nat 0 new_response
           initial).
  - left. apply reach_initial.
  - apply perm_swap.
Defined.

(** The Emote [Kappa] asked for as [kappa]. *)
Lemma get_api_emote_outcome_witness :
  let config := set_A 3600 in
  let e := plain_emote "1" "Kappa" in
  let s := after_load [e] [("kappa", NodeCache.mk_entry e 3600000)]
             ["kappa"] in
  (get_api_emote config 5 (Some "kappa") new_response s).1
    = (res_json (emote_response e) new_response, Done) /\
  (get_api_emote config 5 None new_response s).1
    = (res_json (error_body "Nome do emote não fornecido")
                (res_status 400 new_response), Done).
Proof.
  intros config e s.
  assert (reachable config s) as Hreach.
  { apply (reach_fetch config (serving [("A", [raw_emote "1" "Kappa"])])
             [0]%nat 0 initial [e] s); [apply reach_initial|reflexivity]. }
  split.
  - destruct (get_api_emote_outcome config 5 (Some "kappa") new_response s
                Hreach) as (Hdone & _ & _ & _ & Hfound).
    destruct (Hfound e eq_refl) as (Hres & _).
    apply injective_projections; [exact Hres|exact Hdone].
  - destruct (get_api_emote_outcome config 5 None new_response s Hreach)
      as (_ & _ & Hmissing & _).
    by rewrite (Hmissing eq_refl).
Defined.

(** [GET /Kappa.gif?size=2x] with a CDN that has the image. *)
Lemma get_emoteName_ext_content_type_witness :
  let config := set_A 3600 in
  let e := plain_emote "1" "Kappa" in
  let s := after_load [e] [("kappa", NodeCache.mk_entry e 3600000)]
             ["kappa"] in
  let cdn := fun url : string =>
    if String.eqb url "https://cdn.7tv.app/emote/1/2x.gif"
    then AxiosOk [Byte.x47; Byte.x49; Byte.x46] else AxiosFail in
  let r := (get_emoteName_gif config 5 cdn (Some "2x") (Some "Kappa")
              new_response s).1 in
  r.2 = Done /\
  body r.1 = Some (BodyBuffer [Byte.x47; Byte.x49; Byte.x46]) /\
  res_getHeader "Content-Type" r.1 = Some "image/gif" /\
  res_getHeader "Content-Length" r.1 = Some "3".
Proof.
  intros config e s cdn r.
  assert ((findEmote config 5 (string_or (Some "Kappa") "") s).1 = Some e)
    as Hfind by reflexivity.
  destruct (get_emoteName_ext_content_type config 5 cdn (Some "2x")
              (Some "Kappa") new_response s e Hfind) as (_ & _ & Hgif).
  unfold r. rewrite (Hgif [Byte.x47; Byte.x49; Byte.x46] eq_refl).
  repeat split.
Defined.

End MoreRuns.
